(** * find-unused-steps.mjs: a shallow embedding and its properties

    The script [find-unused-steps.mjs] is a zx program: every piece of real
    work is a shell pipeline started with [$`...`] and the JavaScript around
    it splits, maps and filters the text the pipelines print.  The embedding
    follows that shape.

    - [Text]   : the string operations of JavaScript and of the line
                 oriented tools (split, trim, lines, ...);
    - [Ere]    : the regular expressions handed to [grep] and [awk], with a
                 parser for the pattern text and a backtracking matcher;
    - [Shell]  : a file system and the pipelines of the script, each with the
                 exit status bash gives it under zx's [set -euo pipefail];
    - [Js]     : a state and exception monad over a world that holds the
                 file system, the console, the child processes that were
                 started and have not finished, the trace of process events
                 and the schedule of the run;
    - [Script] : the functions of the script, in that monad;
    - [Props]  : the vocabulary of the properties and the sample projects.

    The properties follow, grouped by component: the pattern builder, the
    usage check, the step report, the extraction, the summary and the run,
    the newline normalization, the listing of the specs directory, and the
    order of the appends and the usage checks.

    Characters are [ascii] values; the text is taken to be 7-bit. *)

From Stdlib Require Import String Ascii List Arith Bool Lia DecimalString.
Import ListNotations.
Local Open Scope list_scope.
Local Open Scope string_scope.

Set Implicit Arguments.

(* ================================================================== *)
(** ** Text *)

Module Text.

Definition LF : ascii := "010"%char.
Definition CR : ascii := "013"%char.
Definition DQUOTE : ascii := "034"%char.

(** White space as [String.prototype.trim] and grep's [\s] see it in 7-bit
    text: HT, LF, VT, FF, CR and SP. *)
Definition is_space (c : ascii) : bool :=
  let n := nat_of_ascii c in
  (((9 <=? n) && (n <=? 13)) || (n =? 32))%nat.

(** The line terminators that the [.] of a JavaScript regular expression
    refuses to match. *)
Definition is_line_terminator (c : ascii) : bool :=
  Ascii.eqb c LF || Ascii.eqb c CR.

Definition is_digit (c : ascii) : bool :=
  let n := nat_of_ascii c in ((48 <=? n) && (n <=? 57))%nat.

Definition is_alpha (c : ascii) : bool :=
  let n := nat_of_ascii c in
  (((65 <=? n) && (n <=? 90)) || ((97 <=? n) && (n <=? 122)))%nat.

(** [\w] of GNU grep. *)
Definition is_word (c : ascii) : bool :=
  is_alpha c || is_digit c || Ascii.eqb c "_"%char.

Fixpoint rev_append (acc s : string) : string :=
  match acc with
  | EmptyString => s
  | String c acc' => rev_append acc' (String c s)
  end.

Definition rev (s : string) : string := rev_append s "".

Fixpoint drop_while (p : ascii -> bool) (s : string) : string :=
  match s with
  | EmptyString => ""
  | String c s' => if p c then drop_while p s' else s
  end.

(** [s.trim()] *)
Definition trim (s : string) : string :=
  rev (drop_while is_space (rev (drop_while is_space s))).

(** [s.split(sep)] for a one-character separator: never empty, the empty
    string gives one empty piece. *)
Fixpoint split (sep : ascii) (s : string) : list string :=
  match s with
  | EmptyString => [""]
  | String c s' =>
      if Ascii.eqb c sep then "" :: split sep s'
      else match split sep s' with
           | [] => [String c ""]
           | piece :: rest => String c piece :: rest
           end
  end.

(** [s.replaceAll(c, "")] for a one-character search string. *)
Fixpoint remove_char (x : ascii) (s : string) : string :=
  match s with
  | EmptyString => ""
  | String c s' =>
      if Ascii.eqb c x then remove_char x s' else String c (remove_char x s')
  end.

Fixpoint mem_char (x : ascii) (s : string) : bool :=
  match s with
  | EmptyString => false
  | String c s' => Ascii.eqb c x || mem_char x s'
  end.

(** The records a line oriented tool (grep, awk, wc) reads from its input: the
    pieces between newlines, a last piece without newline included, an empty
    last piece not. *)
Fixpoint lines (s : string) : list string :=
  match s with
  | EmptyString => []
  | String c s' =>
      if Ascii.eqb c LF then "" :: lines s'
      else match lines s' with
           | [] => [String c ""]
           | l :: rest => String c l :: rest
           end
  end.

Definition newline : string := String LF "".

(** Every record followed by a newline, as grep and awk's [print] write. *)
Definition unlines (ls : list string) : string :=
  String.concat "" (map (fun l => l ++ newline) ls).

Fixpoint last_char (s : string) : option ascii :=
  match s with
  | EmptyString => None
  | String c EmptyString => Some c
  | String _ s' => last_char s'
  end.

Definition ends_with_newline (s : string) : bool :=
  match last_char s with
  | Some c => Ascii.eqb c LF
  | None => false
  end.

Fixpoint count_char (x : ascii) (s : string) : nat :=
  match s with
  | EmptyString => 0
  | String c s' => (if Ascii.eqb c x then 1 else 0) + count_char x s'
  end.

Definition has_suffix (suf s : string) : bool :=
  String.prefix (rev suf) (rev s).

(** Decimal rendering of a number, as a template literal prints it. *)
Definition of_nat (n : nat) : string :=
  NilZero.string_of_uint (Nat.to_uint n).

End Text.

Import Text.

(* ================================================================== *)
(** ** Regular expressions of grep and awk *)

Module Ere.

(** Extended regular expressions, the fragment the patterns of the script
    and of ordinary step names live in: characters, [.], bracket expressions
    made of characters and ranges, the GNU classes [\s \S \w \W], the anchors,
    grouping, alternation and the repetitions [*], [+] and [?]. *)
Inductive re : Type :=
| Eps
| Chr (c : ascii)
| AnyChar
| Bracket (neg : bool) (items : list (ascii * ascii))
| Space (neg : bool)
| Word (neg : bool)
| Bol
| Eol
| Cat (r1 r2 : re)
| Alt (r1 r2 : re)
| Star (r : re).

Definition Plus (r : re) : re := Cat r (Star r).
Definition Opt (r : re) : re := Alt r Eps.

Definition in_range (c : ascii) (lh : ascii * ascii) : bool :=
  ((nat_of_ascii (fst lh) <=? nat_of_ascii c)
   && (nat_of_ascii c <=? nat_of_ascii (snd lh)))%nat.

(** *** Matching

    [run r bol s k]: [r] matches a prefix of [s] and the continuation [k]
    accepts what is left.  [bol] tells whether the position is the start of
    the line.  A repetition goes round again only after its body has
    consumed a character. *)
Fixpoint run (r : re) (bol : bool) (s : string)
         (k : bool -> string -> bool) {struct r} : bool :=
  match r with
  | Eps => k bol s
  | Chr c =>
      match s with
      | String x s' => Ascii.eqb x c && k false s'
      | EmptyString => false
      end
  | AnyChar =>
      match s with
      | String _ s' => k false s'
      | EmptyString => false
      end
  | Bracket neg items =>
      match s with
      | String x s' => xorb neg (existsb (in_range x) items) && k false s'
      | EmptyString => false
      end
  | Space neg =>
      match s with
      | String x s' => xorb neg (is_space x) && k false s'
      | EmptyString => false
      end
  | Word neg =>
      match s with
      | String x s' => xorb neg (is_word x) && k false s'
      | EmptyString => false
      end
  | Bol => bol && k bol s
  | Eol =>
      match s with
      | EmptyString => k bol s
      | String _ _ => false
      end
  | Cat r1 r2 => run r1 bol s (fun b' s' => run r2 b' s' k)
  | Alt r1 r2 => run r1 bol s k || run r2 bol s k
  | Star r' =>
      (fix loop (n : nat) (b : bool) (t : string) {struct n} : bool :=
         k b t
         || match n with
            | O => false
            | S n' =>
                run r' b t
                    (fun b' t' => (String.length t' <? String.length t)%nat
                                  && loop n' b' t')
            end) (String.length s) bol s
  end.

(** The pattern matches somewhere in the line: what selects a line for grep
    and fires a pattern in awk. *)
Fixpoint search_from (r : re) (bol : bool) (s : string) : bool :=
  run r bol s (fun _ _ => true)
  || match s with
     | EmptyString => false
     | String _ s' => search_from r false s'
     end.

Definition search (r : re) (line : string) : bool := search_from r true line.

(** [r] matches exactly the first [n] characters of [s]. *)
Definition match_len (r : re) (bol : bool) (s : string) (n : nat) : bool :=
  run r bol s (fun _ t => (String.length t =? String.length s - n)%nat).

Fixpoint longest (r : re) (bol : bool) (s : string) (n : nat) : option nat :=
  match n with
  | O => None
  | S n' => if match_len r bol s n then Some n else longest r bol s n'
  end.

Fixpoint skip (n : nat) (s : string) : string :=
  match n, s with
  | S n', String _ s' => skip n' s'
  | _, _ => s
  end.

(** The non-empty matches of [grep -o] in one line: leftmost, longest, one
    after the other. *)
Fixpoint only_matching (fuel : nat) (r : re) (bol : bool) (s : string)
  : list string :=
  match fuel, s with
  | S fuel', String _ s' =>
      match longest r bol s (String.length s) with
      | Some n => substring 0 n s :: only_matching fuel' r false (skip n s)
      | None => only_matching fuel' r false s'
      end
  | _, _ => []
  end.

(** *** Reading a pattern *)

(** The body of a bracket expression, after [[] and an optional [^]; a []]
    that comes first stands for itself.  Character classes, equivalence
    classes and collating symbols are outside the fragment. *)
Fixpoint bracket_items (first : bool) (s : string)
         (acc : list (ascii * ascii)) : option (list (ascii * ascii) * string) :=
  match s with
  | EmptyString => None
  | String c s1 =>
      if Ascii.eqb c "]" && negb first then Some (List.rev acc, s1)
      else
        match s1 with
        | String d s2 =>
            if Ascii.eqb c "["
               && (Ascii.eqb d ":" || Ascii.eqb d "." || Ascii.eqb d "=")
            then None
            else if Ascii.eqb d "-" then
              match s2 with
              | String e s3 =>
                  if Ascii.eqb e "]" then bracket_items false s1 ((c, c) :: acc)
                  else bracket_items false s3 ((c, e) :: acc)
              | EmptyString => None
              end
            else bracket_items false s1 ((c, c) :: acc)
        | EmptyString => None
        end
  end.

Definition bracket (s : string) : option (re * string) :=
  match s with
  | String "^" s' =>
      option_map (fun p => (Bracket true (fst p), snd p))
                 (bracket_items true s' [])
  | _ =>
      option_map (fun p => (Bracket false (fst p), snd p))
                 (bracket_items true s [])
  end.

(** A backslash and the character after it.  Back-references and the GNU
    word and buffer anchors are outside the fragment. *)
Definition escaped (c : ascii) : option re :=
  if Ascii.eqb c "s" then Some (Space false)
  else if Ascii.eqb c "S" then Some (Space true)
  else if Ascii.eqb c "w" then Some (Word false)
  else if Ascii.eqb c "W" then Some (Word true)
  else if is_alpha c || is_digit c || Ascii.eqb c "<" || Ascii.eqb c ">"
          || Ascii.eqb c "`" || Ascii.eqb c "'"
  then None
  else Some (Chr c).

Fixpoint repetitions (r : re) (s : string) : re * string :=
  match s with
  | String "*" s' => repetitions (Star r) s'
  | String "+" s' => repetitions (Plus r) s'
  | String "?" s' => repetitions (Opt r) s'
  | _ => (r, s)
  end.

(** Recursive descent over alternatives, sequences and atoms.  [None] is a
    pattern that is malformed (an unmatched parenthesis, a trailing
    backslash) or outside the fragment (an interval [{m,n}], a repetition
    with nothing before it). *)
Fixpoint alternatives (n : nat) (s : string) : option (re * string) :=
  match n with
  | O => None
  | S n' =>
      match sequence n' s with
      | Some (r, String "|" s') =>
          match alternatives n' s' with
          | Some (r', rest) => Some (Alt r r', rest)
          | None => None
          end
      | other => other
      end
  end
with sequence (n : nat) (s : string) : option (re * string) :=
  match n with
  | O => None
  | S n' =>
      match s with
      | EmptyString => Some (Eps, s)
      | String c _ =>
          if Ascii.eqb c "|" || Ascii.eqb c ")" then Some (Eps, s)
          else
            match atom n' s with
            | Some (a, rest) =>
                let (q, rest') := repetitions a rest in
                match sequence n' rest' with
                | Some (r, rest'') => Some (Cat q r, rest'')
                | None => None
                end
            | None => None
            end
      end
  end
with atom (n : nat) (s : string) : option (re * string) :=
  match n with
  | O => None
  | S n' =>
      match s with
      | EmptyString => None
      | String c s' =>
          if Ascii.eqb c "(" then
            match alternatives n' s' with
            | Some (r, String ")" rest) => Some (r, rest)
            | _ => None
            end
          else if Ascii.eqb c "[" then bracket s'
          else if Ascii.eqb c "\" then
            match s' with
            | String e rest => option_map (fun r => (r, rest)) (escaped e)
            | EmptyString => None
            end
          else if Ascii.eqb c "." then Some (AnyChar, s')
          else if Ascii.eqb c "^" then Some (Bol, s')
          else if Ascii.eqb c "$" then Some (Eol, s')
          else if Ascii.eqb c "*" || Ascii.eqb c "+" || Ascii.eqb c "?"
                  || Ascii.eqb c "{"
          then None
          else Some (Chr c, s')
      end
  end.

Definition parse (pattern : string) : option re :=
  match alternatives (3 * String.length pattern + 3) pattern with
  | Some (r, EmptyString) => Some r
  | _ => None
  end.

(** A pattern argument with newlines in it is a list of patterns, one per
    line; a line is selected when one of them matches. *)
Fixpoint parse_all (patterns : list string) : option (list re) :=
  match patterns with
  | [] => Some []
  | p :: ps =>
      match parse p, parse_all ps with
      | Some r, Some rs => Some (r :: rs)
      | _, _ => None
      end
  end.

Definition any_of (rs : list re) : re :=
  match rs with
  | [] => Eps
  | r :: rs' => fold_left Alt rs' r
  end.

Definition parse_arg (pattern : string) : option re :=
  option_map any_of (parse_all (split LF pattern)).

End Ere.

(* ================================================================== *)
(** ** The shell side: files and the pipelines of the script *)

Module Shell.

(** A regular file, by what the user who runs the script may do with it:
    [Readable] is the ordinary file, read and written; [ReadOnly] is read
    and not written; [WriteOnly] is written and not read; [Denied] is there
    and the operating system refuses to open it, for reading as for
    writing. *)
Inductive file : Type :=
| Readable (data : string)
| ReadOnly (data : string)
| WriteOnly (data : string)
| Denied.

(** What a command that opens the file for reading gets. *)
Definition contents (f : file) : option string :=
  match f with
  | Readable data | ReadOnly data => Some data
  | WriteOnly _ | Denied => None
  end.

(** Whether [>>] can open the file. *)
Definition writable (f : file) : bool :=
  match f with
  | Readable _ | WriteOnly _ => true
  | ReadOnly _ | Denied => false
  end.

(** A file system, flat: the directories that exist and the regular files,
    each under the path [find] prints for it.  The order of [files] is the
    order in which [find] lists them. *)
Record fsys : Type := mkFs {
  dirs : list string;
  files : list (string * file)
}.

(** What zx keeps of a finished command.  zx runs every command in bash
    behind the prefix [set -euo pipefail;] and rejects the promise of a
    command whose exit status is not zero. *)
Record ProcessOutput : Type := mkOutput {
  stdout : string;
  exitCode : nat
}.

(** bash under [set -o pipefail]: the status of a pipeline is that of the
    last stage that did not exit with zero, zero when every stage did. *)
Definition pipefail (codes : list nat) : nat :=
  fold_left (fun acc c => if (c =? 0)%nat then acc else c) codes 0.

(** *** Files *)

Definition is_dir (fs : fsys) (d : string) : bool :=
  existsb (String.eqb d) (dirs fs).

Fixpoint assoc (p : string) (l : list (string * file)) : option file :=
  match l with
  | [] => None
  | (q, f) :: l' => if String.eqb q p then Some f else assoc p l'
  end.

Definition read (fs : fsys) (p : string) : option file := assoc p (files fs).

Definition under (dir p : string) : bool := String.prefix (dir ++ "/") p.

(** The last component of a path. *)
Definition basename (p : string) : string :=
  List.last (split "/" p) "".

(** The path without its last component; [None] for a path with no slash,
    which names an entry of the working directory. *)
Definition dirname (p : string) : option string :=
  match List.rev (split "/" p) with
  | _ :: (_ :: _) as parents => Some (String.concat "/" (List.rev parents))
  | _ => None
  end.

(** [>> p] can open [p]: the path is not empty, does not name a directory and
    its parent directory is there. *)
Definition can_create (fs : fsys) (p : string) : bool :=
  negb (String.eqb p "") && negb (is_dir fs p)
  && match dirname p with
     | None => true
     | Some "" => true
     | Some d => is_dir fs d
     end.

(** The bytes [extra] go to the end of the file [p], a new file when there
    is none; a file that cannot be opened for writing stays as it is. *)
Fixpoint append_to (p extra : string) (l : list (string * file))
  : list (string * file) :=
  match l with
  | [] => [(p, Readable extra)]
  | (q, f) :: l' =>
      if String.eqb q p then
        match f with
        | Readable data => (q, Readable (data ++ extra)) :: l'
        | WriteOnly data => (q, WriteOnly (data ++ extra)) :: l'
        | ReadOnly data => (q, ReadOnly data) :: l'
        | Denied => (q, Denied) :: l'
        end
      else (q, f) :: append_to p extra l'
  end.

(** *** The tools *)

(** [find dir -type f]: the regular files below [dir], or [dir] itself when
    it is one; status 1 and nothing listed when [dir] is not there. *)
Definition find_type_f (fs : fsys) (dir : string) : list string * nat :=
  if is_dir fs dir then
    (map fst (filter (fun f => under dir (fst f)) (files fs)), 0)
  else match read fs dir with
       | Some _ => ([dir], 0)
       | None => ([], 1)
       end.

(** [find dir -name "*suffix"]: [dir], the directories and the files below
    it, those whose last component ends in [suffix]. *)
Definition find_name (fs : fsys) (dir suffix : string) : list string * nat :=
  let named := filter (fun p => has_suffix suffix (basename p)) in
  if is_dir fs dir then
    (named (dir :: filter (under dir) (dirs fs)
            ++ filter (under dir) (map fst (files fs)))%list, 0)
  else match read fs dir with
       | Some _ => (named [dir], 0)
       | None => ([], 1)
       end.

(** The arguments xargs reads from its input: separated by blanks and
    newlines.  (xargs also strips quotes and backslashes; paths with such
    characters are not followed further.) *)
Fixpoint words_aux (cur : string) (s : string) : list string :=
  match s with
  | EmptyString => match cur with EmptyString => [] | _ => [rev cur] end
  | String c s' =>
      if is_space c then
        match cur with
        | EmptyString => words_aux "" s'
        | _ => rev cur :: words_aux "" s'
        end
      else words_aux (String c cur) s'
  end.

Definition words (s : string) : list string := words_aux "" s.

(** [cat p1 ... pn]: the contents of the files that can be read, status 1
    when one of the arguments is missing or cannot be opened. *)
Fixpoint cat (fs : fsys) (paths : list string) : string * nat :=
  match paths with
  | [] => ("", 0)
  | p :: ps =>
      let (rest, code) := cat fs ps in
      match read fs p with
      | Some (Readable data) | Some (ReadOnly data) => (data ++ rest, code)
      | _ => (rest, 1)
      end
  end.

(** [xargs cat]: one [cat] on all the arguments; with none, GNU xargs still
    runs [cat], on an empty input.  Status 123 when [cat] failed. *)
Definition xargs_cat (fs : fsys) (input : string) : string * nat :=
  let (out, code) := cat fs (words input) in
  (out, if (code =? 0)%nat then 0 else 123).

(** [find dir -type f -exec cat {} +]: the status of [find] is not zero
    when the directory is not there or when [cat] failed. *)
Definition find_exec_cat (fs : fsys) (dir : string) : string * nat :=
  let (paths, code) := find_type_f fs dir in
  let (out, code') := cat fs paths in
  (out, if (code =? 0)%nat then code' else code).

(** [awk '/start/,/stop/']: the records from one in which [start] matches
    through the next in which [stop] matches, that one included; a record
    in which both match is a range of its own. *)
Fixpoint awk_range_lines (start stop : Ere.re) (inside : bool)
         (ls : list string) : list string :=
  match ls with
  | [] => []
  | l :: ls' =>
      if inside then
        l :: awk_range_lines start stop (negb (Ere.search stop l)) ls'
      else if Ere.search start l then
        l :: awk_range_lines start stop (negb (Ere.search stop l)) ls'
      else awk_range_lines start stop false ls'
  end.

Definition awk_range (start stop input : string) : string * nat :=
  match Ere.parse start, Ere.parse stop with
  | Some r1, Some r2 => (unlines (awk_range_lines r1 r2 false (lines input)), 0)
  | _, _ => ("", 2)
  end.

(** [awk '/pat/ { printf("%s", $0); next } 1']: a record in which [pat]
    matches is written without its newline, any other with it. *)
Definition awk_join (pat input : string) : string * nat :=
  match Ere.parse pat with
  | Some r =>
      (String.concat ""
         (map (fun l => if Ere.search r l then l else l ++ newline)
              (lines input)), 0)
  | None => ("", 2)
  end.

(** [grep -E pat]: the lines in which [pat] matches; status 0 when there is
    one, 1 when there is none, 2 when the pattern cannot be read.  A pattern
    outside the fragment of [Ere] counts as one that cannot be read; what is
    stated about the answers of grep is stated for patterns that are read. *)
Definition grep (pat input : string) : string * nat :=
  match Ere.parse_arg pat with
  | Some r =>
      let selected := filter (Ere.search r) (lines input) in
      (unlines selected, match selected with [] => 1 | _ => 0 end)
  | None => ("", 2)
  end.

(** [grep -o pat]: the matched parts only, each on a line of its own. *)
Definition grep_o (pat input : string) : string * nat :=
  match Ere.parse_arg pat with
  | Some r =>
      let parts :=
        flat_map (fun l => Ere.only_matching (S (String.length l)) r true l)
                 (lines input) in
      (unlines parts, match parts with [] => 1 | _ => 0 end)
  | None => ("", 2)
  end.

(** [wc -l]: the number of newline characters. *)
Definition wc_l (input : string) : nat := count_char LF input.

(** [tail -c1 p]: the last byte of the file, nothing when the file is empty
    or cannot be read. *)
Definition tail_c1 (fs : fsys) (p : string) : string :=
  match read fs p with
  | Some (Readable data) | Some (ReadOnly data) =>
      match last_char data with
      | Some c => String c ""
      | None => ""
      end
  | _ => ""
  end.

(** [echo >> p]: a newline goes to the end of a file that can be written,
    and to a new file when there is none and one can be made; on a file that
    cannot be written the redirection fails and nothing changes. *)
Definition echo_append (fs : fsys) (p : string) : fsys :=
  match read fs p with
  | Some _ => mkFs (dirs fs) (append_to p newline (files fs))
  | None =>
      if can_create fs p then mkFs (dirs fs) (append_to p newline (files fs))
      else fs
  end.

(** *** The commands of the script *)

Inductive command : Type :=
| CmdFindSteps (srcDir : string)
| CmdFindConceptFiles (specsDir : string)
| CmdGrepConcepts (specsDir : string)
| CmdAppendNewline (file : string)
| CmdFindSpecFiles (specsDir : string)
| CmdGrepUsage (specsDir pattern : string).

Definition quote_pattern : string :=
  String DQUOTE (".*" ++ String DQUOTE "").

(** Line 31:
    [find ${srcDir} -name "*kt" | xargs cat | awk '/@Step/,/\)/'
       | awk '/,$/ { printf("%s", $0); next } 1' | grep -o '".*"'].
    zx pastes the cooked text of the template, in which [\)] is a bare
    [)]; awk takes the lone parenthesis for the character, which the
    pattern reader of this file spells [\)]. *)
Definition find_steps_pipeline (fs : fsys) (srcDir : string) : ProcessOutput :=
  let (listed, c1) := find_name fs srcDir "kt" in
  let (text, c2) := xargs_cat fs (unlines listed) in
  let (blocks, c3) := awk_range "@Step" "\)" text in
  let (joined, c4) := awk_join ",$" blocks in
  let (names, c5) := grep_o quote_pattern joined in
  mkOutput names (pipefail [c1; c2; c3; c4; c5]).

(** Line 36: [find ${specsDir} -name "*.cpt"] *)
Definition find_concept_files (fs : fsys) (specsDir : string) : ProcessOutput :=
  let (listed, c1) := find_name fs specsDir ".cpt" in
  mkOutput (unlines listed) c1.

(** Line 41:
    [find ${specsDir} -name "*.cpt" | xargs cat | grep -oE '^\#\s+.*\s*$'] *)
Definition grep_concepts_pipeline (fs : fsys) (specsDir : string)
  : ProcessOutput :=
  let (listed, c1) := find_name fs specsDir ".cpt" in
  let (text, c2) := xargs_cat fs (unlines listed) in
  let (headers, c3) := grep_o "^\#\s+.*\s*$" text in
  mkOutput headers (pipefail [c1; c2; c3]).

(** Line 52: [[ $(tail -c1 ${file} | wc -l) -eq 0 ] && echo >> ${file} || :]
    The last byte is counted as a line or not; with no line counted a
    newline is appended.  The closing [|| :] makes the status zero, also
    when [echo >>] failed.  The path is one word of the command, as zx
    quotes it (an empty path as the empty word). *)
Definition append_newline (fs : fsys) (file : string) : ProcessOutput * fsys :=
  if (wc_l (tail_c1 fs file) =? 0)%nat
  then (mkOutput "" 0, echo_append fs file)
  else (mkOutput "" 0, fs).

(** Line 59: [find ${specsDir} -type f] *)
Definition find_spec_files (fs : fsys) (specsDir : string) : ProcessOutput :=
  let (listed, c1) := find_type_f fs specsDir in
  mkOutput (unlines listed) c1.

(** Line 65:
    [find ${specsDir} -type f -exec cat {} + | grep -E ${pattern} | wc -l] *)
Definition grep_usage_pipeline (fs : fsys) (specsDir pattern : string)
  : ProcessOutput :=
  let (text, c1) := find_exec_cat fs specsDir in
  let (selected, c2) := grep pattern text in
  mkOutput (of_nat (wc_l selected) ++ newline) (pipefail [c1; c2; 0]).

Definition run (c : command) (fs : fsys) : ProcessOutput * fsys :=
  match c with
  | CmdFindSteps srcDir => (find_steps_pipeline fs srcDir, fs)
  | CmdFindConceptFiles specsDir => (find_concept_files fs specsDir, fs)
  | CmdGrepConcepts specsDir => (grep_concepts_pipeline fs specsDir, fs)
  | CmdAppendNewline file => append_newline fs file
  | CmdFindSpecFiles specsDir => (find_spec_files fs specsDir, fs)
  | CmdGrepUsage specsDir pattern =>
      (grep_usage_pipeline fs specsDir pattern, fs)
  end.

End Shell.

Import Shell.

(* ================================================================== *)
(** ** The world of a run and the monad of the script *)

Module Js.

(** What is observed of the child processes: when a command is started by
    [$`...`] and when it has run to its end. *)
Inductive event : Type :=
| Started (c : command)
| Finished (c : command) (code : nat).

(** - [w_fs]       the files;
    - [w_pending]  the commands started and not yet finished, oldest first;
    - [w_console]  the arguments of the [console.log] calls so far;
    - [w_trace]    the process events so far;
    - [w_schedule] how the operating system schedules the run: each time
                   the script waits for a command of its own the head says
                   how many of the older pending commands finish first.
    A child process may finish at any moment; the files it leaves are seen
    by the next command that runs, which is where the world settles it. *)
Record world : Type := mkWorld {
  w_fs : fsys;
  w_pending : list command;
  w_console : list string;
  w_trace : list event;
  w_schedule : list nat
}.

Inductive exn : Type :=
| ProcessError (output : ProcessOutput)
| TypeError (message : string).

Inductive outcome (A : Type) : Type :=
| Returned (a : A)
| Thrown (e : exn).
Arguments Returned {A} a.
Arguments Thrown {A} e.

Definition M (A : Type) : Type := world -> outcome A * world.

Definition ret {A} (a : A) : M A := fun w => (Returned a, w).

Definition throw {A} (e : exn) : M A := fun w => (Thrown e, w).

Definition bind {A B} (m : M A) (f : A -> M B) : M B :=
  fun w =>
    match m w with
    | (Returned a, w') => f a w'
    | (Thrown e, w') => (Thrown e, w')
    end.

(** [try { m } catch (e) { h e }] *)
Definition try_catch {A} (m : M A) (h : exn -> M A) : M A :=
  fun w =>
    match m w with
    | (Returned a, w') => (Returned a, w')
    | (Thrown e, w') => h e w'
    end.

Definition lift {A} (o : outcome A) : M A := fun w => (o, w).

Notation "x <- m ;; k" := (bind m (fun x => k))
  (at level 61, m at next level, right associativity).
Notation "m ;;; k" := (bind m (fun _ => k))
  (at level 61, right associativity).

(** The world with some more lines on the console. *)
Definition printed (ls : list string) (w : world) : world :=
  mkWorld (w_fs w) (w_pending w) (w_console w ++ ls)%list
          (w_trace w) (w_schedule w).

(** [console.log(s)] *)
Definition log (s : string) : M unit :=
  fun w => (Returned tt, printed [s] w).

Definition record (e : event) (w : world) : world :=
  mkWorld (w_fs w) (w_pending w) (w_console w)
          (w_trace w ++ [e])%list (w_schedule w).

(** The oldest pending command runs to its end. *)
Definition settle (w : world) : world :=
  match w_pending w with
  | [] => w
  | c :: rest =>
      let (out, fs') := run c (w_fs w) in
      mkWorld fs' rest (w_console w)
              (w_trace w ++ [Finished c (exitCode out)])%list (w_schedule w)
  end.

Fixpoint settle_n (n : nat) (w : world) : world :=
  match n with
  | O => w
  | S n' => settle_n n' (settle w)
  end.

(** Everything still pending runs to its end: the state in which node
    leaves the files when the last child process is gone. *)
Definition drain (w : world) : world := settle_n (List.length (w_pending w)) w.

Definition next_turn (w : world) : nat * world :=
  match w_schedule w with
  | [] => (0, w)
  | n :: rest =>
      (n, mkWorld (w_fs w) (w_pending w) (w_console w) (w_trace w) rest)
  end.

(** [$`c`] whose promise nobody waits for: the command is started, the
    script goes on. *)
Definition spawn (c : command) : M unit :=
  fun w =>
    (Returned tt,
     mkWorld (w_fs w) (w_pending w ++ [c])%list (w_console w)
             (w_trace w ++ [Started c])%list (w_schedule w)).

(** The world in which an awaited command runs: it has been started and,
    while the script waits, the older commands the schedule names have
    finished. *)
Definition awaited (c : command) (w : world) : world :=
  let (n, w1) := next_turn (record (Started c) w) in
  settle_n n w1.

(** [await $`c`]: the command is started, the script waits, the command
    runs.  zx rejects the promise when the exit status is not zero. *)
Definition sh (c : command) : M ProcessOutput :=
  fun w =>
    let w2 := awaited c w in
    let (out, fs') := run c (w_fs w2) in
    let w3 := mkWorld fs' (w_pending w2) (w_console w2)
                      (w_trace w2 ++ [Finished c (exitCode out)])%list
                      (w_schedule w2) in
    if (exitCode out =? 0)%nat then (Returned out, w3)
    else (Thrown (ProcessError out), w3).

(** [xs.map(f)] with a callback that may throw, and [Promise.all] over
    [xs.map(async x => ...)] with the callbacks taken in array order, each
    to its end.  The commands these callbacks wait for only read the files:
    their order matters through the appends that are still pending and
    nothing else, and the schedule leaves open how many of those finish
    before each of them. *)
Fixpoint traverse {A B} (f : A -> M B) (xs : list A) : M (list B) :=
  match xs with
  | [] => ret []
  | x :: xs' => y <- f x ;; ys <- traverse f xs' ;; ret (y :: ys)
  end.

Fixpoint for_each {A} (f : A -> M unit) (xs : list A) : M unit :=
  match xs with
  | [] => ret tt
  | x :: xs' => f x ;;; for_each f xs'
  end.

End Js.

Import Js.

(* ================================================================== *)
(** ** The script *)

Module Script.

(** [{stepName, pattern}] *)
Record definition : Type := mkDefinition {
  stepName : string;
  pattern : string
}.

(** [{...definition, unused: unused}] *)
Record checked : Type := mkChecked {
  checked_definition : definition;
  unused : bool
}.

Definition createDefinition (stepName pattern : string) : definition :=
  mkDefinition stepName pattern.

(** A [>] closes the span that a [<] or a quote opened when it comes before
    any line terminator: the lazy [.*?] of the two JavaScript patterns stops
    at the first closing character and never crosses a line terminator. *)
Fixpoint has_close (close : ascii) (s : string) : bool :=
  match s with
  | EmptyString => false
  | String c s' =>
      if Ascii.eqb c close then true
      else if is_line_terminator c then false
      else has_close close s'
  end.

(** [name.replaceAll(/\<.*?\>/g, "\.\+")]: from left to right, every [<]
    that has its [>] is replaced, together with everything up to and
    including the first such [>], by the two characters [.+]; every other
    character is copied.  [inside] is true between a replaced [<] and its
    [>]. *)
Fixpoint replace_placeholders (inside : bool) (s : string) : string :=
  match s with
  | EmptyString => ""
  | String c s' =>
      if inside then
        if Ascii.eqb c ">" then replace_placeholders false s'
        else replace_placeholders true s'
      else if Ascii.eqb c "<" && has_close ">" s' then
        ".+" ++ replace_placeholders true s'
      else String c (replace_placeholders false s')
  end.

Definition createStepNamePattern (name : string) : string :=
  "^\*\s+" ++ replace_placeholders false name ++ "\s*$".

Definition createDefinitions (stepNames : list string) : list definition :=
  map (fun stepName =>
         createDefinition stepName (createStepNamePattern stepName))
      stepNames.

(** [line.match(/\".*?\"/g)]: the quoted pieces of the line, quotes included,
    from left to right; [cur] holds, reversed, the piece being read.  The
    empty list stands for the [null] that [match] returns when there is
    none. *)
Fixpoint quoted (cur : option string) (s : string) : list string :=
  match s with
  | EmptyString => []
  | String c s' =>
      match cur with
      | Some acc =>
          if Ascii.eqb c DQUOTE then rev (String c acc) :: quoted None s'
          else quoted (Some (String c acc)) s'
      | None =>
          if Ascii.eqb c DQUOTE && has_close DQUOTE s'
          then quoted (Some (String c "")) s'
          else quoted None s'
      end
  end.

(** Calling [.map] on the [null] of a line without quoted piece is a
    [TypeError]. *)
Definition convertToStepNames (line : string) : outcome (list definition) :=
  match quoted None line with
  | [] => Thrown (TypeError "Cannot read properties of null (reading 'map')")
  | pieces => Returned (createDefinitions (map (remove_char DQUOTE) pieces))
  end.

Definition findSteps (srcDir : string) : M (list (list definition)) :=
  rawSteps <- sh (CmdFindSteps srcDir) ;;
  traverse (fun line => lift (convertToStepNames line))
           (filter (fun line => (0 <? String.length line)%nat)
                   (split LF (stdout rawSteps))).

Definition findConcepts (specsDir : string) : M (list definition) :=
  result <- sh (CmdFindConceptFiles specsDir) ;;
  if (String.length (trim (stdout result)) =? 0)%nat then ret []
  else
    rawConcepts <- sh (CmdGrepConcepts specsDir) ;;
    ret (map (fun concept =>
                createDefinition concept (createStepNamePattern concept))
             (map (fun concept => trim (remove_char "#" concept))
                  (split LF (trim (stdout rawConcepts))))).

Definition findSpecFiles (specsDir : string) : M (list string) :=
  result <- sh (CmdFindSpecFiles specsDir) ;;
  ret (split LF (trim (stdout result))).

(** The callback of [specFiles.map] starts the command and returns at once:
    it neither awaits nor returns the promise of [$], so [Promise.all]
    waits for none of the commands: they go on as child processes while the
    script continues. *)
Definition formatForStepSearch (specsDir : string) : M unit :=
  specFiles <- findSpecFiles specsDir ;;
  for_each (fun file => spawn (CmdAppendNewline file)) specFiles ;;;
  log ("Format done." ++ newline).

Definition isUnused (d : definition) (specsDir : string) : M bool :=
  try_catch (sh (CmdGrepUsage specsDir (pattern d)) ;;; ret false)
            (fun _ => ret true).

(** The callback of the inner [map] of [findUnusedSteps], the same as the
    callback of [findUnusedConcepts]. *)
Definition checkUsage (specsDir : string) (d : definition) : M checked :=
  u <- isUnused d specsDir ;;
  ret (mkChecked d u).

Definition findUnusedSteps (steps : list (list definition)) (specsDir : string)
  : M (list (list checked)) :=
  result <- traverse (fun step => traverse (checkUsage specsDir) step) steps ;;
  ret (filter (fun step => existsb unused step) result).

Definition printUnusedSteps (steps : list (list checked)) : M unit :=
  log "Unused step names:" ;;;
  for_each (fun step =>
              for_each (fun d => log ("* " ++ stepName (checked_definition d)))
                       (filter unused step))
           steps ;;;
  log "".

Definition findUnusedConcepts (concepts : list definition) (specsDir : string)
  : M (list checked) :=
  result <- traverse (checkUsage specsDir) concepts ;;
  ret (filter unused result).

Definition printUnusedConcepts (concepts : list checked) : M unit :=
  log "Unused concepts:" ;;;
  for_each (fun concept =>
              log ("# " ++ stepName (checked_definition concept)))
           concepts ;;;
  log "".

Definition rule : string :=
  "------------------------------------------------------".

Definition printSummary (steps : list (list definition))
           (unusedSteps : list (list checked))
           (concepts : list definition) (unusedConcepts : list checked)
  : M unit :=
  let stepNameCount :=
    fold_left (fun sum step => sum + List.length step) steps 0 in
  let unusedStepNameCount :=
    fold_left (fun sum step => sum + List.length (filter unused step))
              unusedSteps 0 in
  log rule ;;;
  (if (0 <? unusedStepNameCount)%nat || (0 <? List.length unusedConcepts)%nat
   then
     log ("Unused steps: " ++ of_nat (List.length unusedSteps) ++ " / "
          ++ of_nat (List.length steps)) ;;;
     log ("Unused step names: " ++ of_nat unusedStepNameCount ++ " / "
          ++ of_nat stepNameCount) ;;;
     log ("Unused concepts: " ++ of_nat (List.length unusedConcepts) ++ " / "
          ++ of_nat (List.length concepts))
   else log "ALL CLEAN!") ;;;
  log rule.

Definition printTarget (projectDir srcDir specsDir : string) : M unit :=
  log rule ;;;
  log ("Target project directory:  " ++ projectDir) ;;;
  log ("Src directory:  " ++ srcDir) ;;;
  log ("Specs directory:  " ++ specsDir) ;;;
  log rule.

Section Driver.

(** [path.normalize] of node, not part of the script. *)
Variable normalize : string -> string.

Definition exec (projectDir : string) : M unit :=
  let srcDir := normalize (projectDir ++ "/src/test/kotlin") in
  let specsDir := normalize (projectDir ++ "/specs") in
  printTarget projectDir srcDir specsDir ;;;
  formatForStepSearch specsDir ;;;
  steps <- findSteps srcDir ;;
  unusedSteps <- findUnusedSteps steps specsDir ;;
  printUnusedSteps unusedSteps ;;;
  concepts <- findConcepts specsDir ;;
  unusedConcepts <-
    (if (0 <? List.length concepts)%nat
     then findUnusedConcepts concepts specsDir
     else ret []) ;;
  printUnusedConcepts unusedConcepts ;;;
  printSummary steps unusedSteps concepts unusedConcepts.

End Driver.

End Script.

Import Script.

(* ================================================================== *)
(** ** Vocabulary of the properties *)

Module Props.

(** *** Names and their placeholders *)

(** A name cut into what the pattern builder sees: single characters of
    plain text and placeholders [<body>]. *)
Inductive piece : Type :=
| Text (c : ascii)
| Placeholder (body : string).

Fixpoint render (ps : list piece) : string :=
  match ps with
  | [] => ""
  | Text c :: ps' => String c (render ps')
  | Placeholder body :: ps' => "<" ++ body ++ ">" ++ render ps'
  end.

(** The same name with [.+] in the place of every placeholder. *)
Fixpoint wildcarded (ps : list piece) : string :=
  match ps with
  | [] => ""
  | Text c :: ps' => String c (wildcarded ps')
  | Placeholder _ :: ps' => ".+" ++ wildcarded ps'
  end.

(** The two delimiters occur only around placeholders, and a placeholder
    runs to the first [>] of its line. *)
Definition well_formed (p : piece) : bool :=
  match p with
  | Text c => negb (Ascii.eqb c "<") && negb (Ascii.eqb c ">")
  | Placeholder body =>
      negb (mem_char ">" body) && negb (mem_char LF body)
      && negb (mem_char CR body)
  end.

Fixpoint placeholders (ps : list piece) : nat :=
  match ps with
  | [] => 0
  | Text _ :: ps' => placeholders ps'
  | Placeholder _ :: ps' => S (placeholders ps')
  end.

Definition starts_with_plus (s : string) : bool :=
  match s with
  | String c _ => Ascii.eqb c "+"
  | EmptyString => false
  end.

(** The occurrences of the token [.+] in a string. *)
Fixpoint count_wildcards (s : string) : nat :=
  match s with
  | EmptyString => 0
  | String c s' =>
      (if Ascii.eqb c "." && starts_with_plus s' then 1 else 0)
      + count_wildcards s'
  end.

(** The occurrences of [.+] that the plain text of the name has already:
    a [.] and a [+] next to each other. *)
Fixpoint literal_wildcards (ps : list piece) : nat :=
  match ps with
  | Text c :: ((Text d :: _) as ps') =>
      (if Ascii.eqb c "." && Ascii.eqb d "+" then 1 else 0)
      + literal_wildcards ps'
  | _ :: ps' => literal_wildcards ps'
  | [] => 0
  end.

(** The number of matches of [/\<.*?\>/g] in a name, found the way
    [replace_placeholders] finds them. *)
Fixpoint count_spans (inside : bool) (s : string) : nat :=
  match s with
  | EmptyString => 0
  | String c s' =>
      if inside then
        if Ascii.eqb c ">" then count_spans false s'
        else count_spans true s'
      else if Ascii.eqb c "<" && has_close ">" s' then
        S (count_spans true s')
      else count_spans false s'
  end.

(** *** Paths *)

(** The first character is there and is not white space. *)
Definition starts_plain (s : string) : bool :=
  match s with
  | String c _ => negb (is_space c)
  | EmptyString => false
  end.

(** A path that survives the way the script reads a listing ([trim], then
    [split] at newlines): it holds no line feed and neither starts nor ends
    with white space; white space inside it does no harm. *)
Definition listed_path (p : string) : bool :=
  starts_plain p && starts_plain (rev p) && negb (mem_char LF p).

(** The regular files below a directory, as [find -type f] lists them. *)
Definition files_below (fs : fsys) (dir : string) : list string :=
  map fst (filter (fun f => under dir (fst f)) (files fs)).

(** A file with its final newline. *)
Definition normalized (data : string) : string :=
  if ends_with_newline data then data else data ++ newline.

(** *** Traces *)

(** No usage check is started while a newline append that was started
    before it is still running; [running] counts the appends started and
    not finished. *)
Fixpoint appends_before_checks (running : nat) (t : list event) : bool :=
  match t with
  | [] => true
  | Started (CmdAppendNewline _) :: t' => appends_before_checks (S running) t'
  | Finished (CmdAppendNewline _) _ :: t' =>
      appends_before_checks (pred running) t'
  | Started (CmdGrepUsage _ _) :: t' =>
      (running =? 0)%nat && appends_before_checks running t'
  | _ :: t' => appends_before_checks running t'
  end.

(** *** Worlds *)

(** A run that starts: nothing printed, no child process, the given files
    and schedule. *)
Definition fresh (fs : fsys) (schedule : list nat) : world :=
  mkWorld fs [] [] [] schedule.

Definition quoted_text (s : string) : string :=
  String DQUOTE (s ++ String DQUOTE "").

Definition project_dirs : list string :=
  ["p"; "p/specs"; "p/src"; "p/src/test"; "p/src/test/kotlin"].

(** The declaration of the step [Login as admin]. *)
Definition login : definition :=
  createDefinition "Login as admin" (createStepNamePattern "Login as admin").

(** The declaration of the step [Sign in as <user>]. *)
Definition sign_in : definition :=
  createDefinition "Sign in as <user>"
                   (createStepNamePattern "Sign in as <user>").

(** A project whose only step has two names on one logical line; the
    specification calls the first. *)
Definition alias_project : fsys :=
  mkFs project_dirs
       [("p/specs/a.spec", Readable ("* Login as admin" ++ newline));
        ("p/src/test/kotlin/S.kt",
         Readable ("@Step(" ++ quoted_text "Login as admin" ++ ", "
                   ++ quoted_text "Sign in as <user>" ++ ")" ++ newline))].

(** A project with an empty specification file that can be read and not
    written, and a second one, without final newline, under a name with a
    blank. *)
Definition read_only_project : fsys :=
  mkFs project_dirs
       [("p/specs/empty.spec", ReadOnly "");
        ("p/specs/my login.spec", ReadOnly "* Login as admin");
        ("p/src/test/kotlin/S.kt",
         Readable ("@Step(" ++ quoted_text "Login as admin" ++ ")" ++ newline))].

(** A project whose only step is used by [a.spec], with a second
    specification file that cannot be opened. *)
Definition locked_project : fsys :=
  mkFs project_dirs
       [("p/specs/a.spec", Readable ("* Login as admin" ++ newline));
        ("p/specs/locked.spec", Denied);
        ("p/src/test/kotlin/S.kt",
         Readable ("@Step(" ++ quoted_text "Login as admin" ++ ")" ++ newline))].

(** The same project without the second file. *)
Definition clean_project : fsys :=
  mkFs project_dirs
       [("p/specs/a.spec", Readable ("* Login as admin" ++ newline));
        ("p/src/test/kotlin/S.kt",
         Readable ("@Step(" ++ quoted_text "Login as admin" ++ ")" ++ newline))].

(** A project with a specification and no test source at all. *)
Definition sourceless_project : fsys :=
  mkFs project_dirs
       [("p/specs/a.spec", Readable ("* Login as admin" ++ newline))].

(** A project with one concept file. *)
Definition concept_project : fsys :=
  mkFs project_dirs
       [("p/specs/a.spec", Readable ("* Login as admin" ++ newline));
        ("p/specs/checkout.cpt",
         Readable ("# Checkout Flow" ++ newline ++ "* Add item" ++ newline
                   ++ "* Pay" ++ newline));
        ("p/src/test/kotlin/S.kt",
         Readable ("@Step(" ++ quoted_text "Login as admin" ++ ")" ++ newline))].

(** A project whose first specification file ends without a newline; the
    file that [find] lists after it starts with a header. *)
Definition unterminated_project : fsys :=
  mkFs project_dirs
       [("p/specs/a.spec", Readable "* Login as admin");
        ("p/specs/b.spec", Readable ("# Billing" ++ newline));
        ("p/specs/empty.spec", Readable "");
        ("p/src/test/kotlin/S.kt",
         Readable ("@Step(" ++ quoted_text "Login as admin" ++ ")" ++ newline))].

(** The run up to and with the report on the steps: the first lines of
    [exec], which hand the steps and the collected groups to the rest. *)
Definition steps_phase (normalize : string -> string) (projectDir : string)
  : M (list (list definition) * list (list checked)) :=
  let srcDir := normalize (projectDir ++ "/src/test/kotlin") in
  let specsDir := normalize (projectDir ++ "/specs") in
  printTarget projectDir srcDir specsDir ;;;
  formatForStepSearch specsDir ;;;
  steps <- findSteps srcDir ;;
  unusedSteps <- findUnusedSteps steps specsDir ;;
  printUnusedSteps unusedSteps ;;;
  ret (steps, unusedSteps).

(** A project whose specs directory holds no file, and one that has no
    specs directory. *)
Definition specless_project : fsys :=
  mkFs project_dirs
       [("p/src/test/kotlin/S.kt",
         Readable ("@Step(" ++ quoted_text "Login as admin" ++ ")" ++ newline))].

Definition headless_project : fsys :=
  mkFs ["p"; "p/src"; "p/src/test"; "p/src/test/kotlin"]
       [("p/src/test/kotlin/S.kt",
         Readable ("@Step(" ++ quoted_text "Login as admin" ++ ")" ++ newline))].

(** A project whose specification calls [Add <a> and <b>], and one whose
    specification has prose only. *)
Definition calculator_project : fsys :=
  mkFs project_dirs
       [("p/specs/calc.spec",
         Readable ("# Calculator" ++ newline ++ "* Add 3 and 4" ++ newline))].

Definition prose_project : fsys :=
  mkFs project_dirs
       [("p/specs/notes.spec",
         Readable ("# Notes" ++ newline ++ "Add 3 and 4" ++ newline))].

(** A project whose sources hold no step annotation and whose concept file
    holds no header. *)
Definition bare_project : fsys :=
  mkFs project_dirs
       [("p/specs/a.spec", Readable ("* Login as admin" ++ newline));
        ("p/specs/steps.cpt", Readable ("* Login as admin" ++ newline));
        ("p/src/test/kotlin/Util.kt",
         Readable ("fun helper() {}" ++ newline))].

(** The name [Add <a> and <b>], cut into pieces. *)
Definition add_name : list piece :=
  [Text "A"; Text "d"; Text "d"; Text " "; Placeholder "a"; Text " ";
   Text "a"; Text "n"; Text "d"; Text " "; Placeholder "b"].

(** *** Lines of step names *)

(** A logical line of a step annotation: quoted names, each after some text
    without quote, and some such text at the end. *)
Fixpoint annotation_line (items : list (string * string)) (tail : string)
  : string :=
  match items with
  | [] => tail
  | (before, name) :: rest =>
      before ++ quoted_text name ++ annotation_line rest tail
  end.

(** The text around the names holds no quote; a name holds no quote and no
    line terminator. *)
Definition annotation_item_ok (item : string * string) : bool :=
  negb (mem_char DQUOTE (fst item))
  && negb (mem_char DQUOTE (snd item))
  && negb (mem_char LF (snd item)) && negb (mem_char CR (snd item)).

(** *** The corpus and its lines *)

(** [grep -E] can read the pattern. *)
Definition readable_pattern (pat : string) : bool :=
  match Ere.parse_arg pat with
  | Some _ => true
  | None => false
  end.

(** Some line of the text is selected by the pattern. *)
Definition matching_line (text pat : string) : bool :=
  match Ere.parse_arg pat with
  | Some r => existsb (Ere.search r) (lines text)
  | None => false
  end.

(** No line of the text is selected by the pattern of the declaration: the
    declaration is unused on its own. *)
Definition unmatched (text : string) (d : definition) : bool :=
  negb (matching_line text (pattern d)).

(** The declarations of a group, each with the answer of its own check. *)
Definition with_answers (step : list definition) (answers : list bool)
  : list checked :=
  map (fun p => mkChecked (fst p) (snd p)) (combine step answers).

(** The groups, each declaration with the answer of its own check. *)
Definition groups_with_answers (steps : list (list definition))
           (answers : list (list bool)) : list (list checked) :=
  map (fun p => with_answers (fst p) (snd p)) (combine steps answers).

(** The declaration with the mark that the text gives it. *)
Definition marked_by (text : string) (d : definition) : checked :=
  mkChecked d (negb (matching_line text (pattern d))).

(** What a step of the script that only reads leaves of a world with no
    child process running: the same files, no child process, the same
    console. *)
Definition unchanged (w w' : world) : Prop :=
  w_fs w' = w_fs w /\ w_pending w' = [] /\ w_console w' = w_console w.

(** *** Calls of a step *)

(** A character that stands for itself in a pattern: none of the characters
    that an extended regular expression reads as an operator, no placeholder
    delimiter and no line terminator. *)
Definition ordinary (c : ascii) : bool :=
  negb (Ascii.eqb c "\") && negb (Ascii.eqb c ".") && negb (Ascii.eqb c "[")
  && negb (Ascii.eqb c "]") && negb (Ascii.eqb c "(") && negb (Ascii.eqb c ")")
  && negb (Ascii.eqb c "*") && negb (Ascii.eqb c "+") && negb (Ascii.eqb c "?")
  && negb (Ascii.eqb c "{") && negb (Ascii.eqb c "}") && negb (Ascii.eqb c "|")
  && negb (Ascii.eqb c "^") && negb (Ascii.eqb c "$") && negb (Ascii.eqb c "<")
  && negb (Ascii.eqb c ">") && negb (Ascii.eqb c LF) && negb (Ascii.eqb c CR).

(** A piece of a name made of ordinary text and well-formed placeholders. *)
Definition plain_piece (p : piece) : bool :=
  match p with
  | Text c => ordinary c
  | Placeholder _ => well_formed p
  end.

(** The expression that grep reads in the pattern of such a name. *)
Fixpoint body_re (ps : list piece) : Ere.re :=
  match ps with
  | [] => Ere.Cat (Ere.Star (Ere.Space false)) (Ere.Cat Ere.Eol Ere.Eps)
  | Text c :: ps' => Ere.Cat (Ere.Chr c) (body_re ps')
  | Placeholder _ :: ps' => Ere.Cat (Ere.Plus Ere.AnyChar) (body_re ps')
  end.

Definition pattern_re (ps : list piece) : Ere.re :=
  Ere.Cat Ere.Bol
    (Ere.Cat (Ere.Chr "*")
       (Ere.Cat (Ere.Plus (Ere.Space false)) (body_re ps))).

(** The text of a call of the step: the name with an argument in the place
    of each placeholder. *)
Fixpoint instantiate (ps : list piece) (args : list string) : string :=
  match ps with
  | [] => ""
  | Text c :: ps' => String c (instantiate ps' args)
  | Placeholder _ :: ps' =>
      match args with
      | a :: args' => a ++ instantiate ps' args'
      | [] => ""
      end
  end.

(** One argument for each placeholder, none empty. *)
Fixpoint fits (ps : list piece) (args : list string) : bool :=
  match ps with
  | [] => match args with [] => true | _ => false end
  | Text _ :: ps' => fits ps' args
  | Placeholder _ :: ps' =>
      match args with
      | a :: args' => negb (String.eqb a "") && fits ps' args'
      | [] => false
      end
  end.

(** The line starts with the marker of a step call: [*] and white
    space. *)
Definition marked_line (line : string) : bool :=
  match line with
  | String c (String x _) => Ascii.eqb c "*" && is_space x
  | _ => false
  end.

(** The line starts with the [#] of a concept header. *)
Definition starts_with_hash (line : string) : bool :=
  match line with
  | String c _ => Ascii.eqb c "#"
  | EmptyString => false
  end.

(** The text starts with one of the repetition operators. *)
Definition starts_with_repetition (s : string) : bool :=
  match s with
  | String c _ => Ascii.eqb c "*" || Ascii.eqb c "+" || Ascii.eqb c "?"
  | EmptyString => false
  end.

Fixpoint all_chars (p : ascii -> bool) (s : string) : bool :=
  match s with
  | EmptyString => true
  | String c s' => p c && all_chars p s'
  end.

(** The loop of a repetition, as [Ere.run] has it. *)
Definition star_loop (r' : Ere.re) (k : bool -> string -> bool)
  : nat -> bool -> string -> bool :=
  fix loop (n : nat) (b : bool) (t : string) {struct n} : bool :=
    k b t
    || match n with
       | O => false
       | S n' =>
           Ere.run r' b t
                   (fun b' t' => (String.length t' <? String.length t)%nat
                                 && loop n' b' t')
       end.

(** A computation of the script keeps a property of the files. *)
Definition keeps (Q : fsys -> Prop) {A : Type} (m : M A) : Prop :=
  forall w, Q (w_fs w) -> Q (w_fs (snd (m w))).

(** *** The sections of the report *)

Definition target_lines (projectDir srcDir specsDir : string) : list string :=
  [rule; "Target project directory:  " ++ projectDir;
   "Src directory:  " ++ srcDir; "Specs directory:  " ++ specsDir; rule].

Definition steps_section (unusedSteps : list (list checked)) : list string :=
  ("Unused step names:"
   :: map (fun c => ("* " ++ stepName (checked_definition c))%string)
          (flat_map (filter unused) unusedSteps)
   ++ [""])%list.

Definition concepts_section (unusedConcepts : list checked) : list string :=
  ("Unused concepts:"
   :: map (fun c => ("# " ++ stepName (checked_definition c))%string)
          unusedConcepts
   ++ [""])%list.

Definition summary_lines (steps : list (list definition))
           (unusedSteps : list (list checked)) (concepts : list definition)
           (unusedConcepts : list checked) : list string :=
  let unusedNames := List.length (flat_map (filter unused) unusedSteps) in
  (rule
   :: (if (0 <? unusedNames)%nat || (0 <? List.length unusedConcepts)%nat
       then [("Unused steps: " ++ of_nat (List.length unusedSteps)
              ++ " / " ++ of_nat (List.length steps))%string;
             ("Unused step names: " ++ of_nat unusedNames
              ++ " / " ++ of_nat (List.length (concat steps)))%string;
             ("Unused concepts: " ++ of_nat (List.length unusedConcepts)
              ++ " / " ++ of_nat (List.length concepts))%string]
       else ["ALL CLEAN!"])
   ++ [rule])%list.

End Props.

Import Props.

(* ================================================================== *)
(** ** Properties of the pattern builder *)

Section PatternBuilder.

Lemma has_close_body (body rest : string) :
  mem_char LF body = false -> mem_char CR body = false ->
  has_close ">" (body ++ String ">" rest) = true.
Proof.
  induction body as [|c body IH]; simpl; intros Hlf Hcr.
  - reflexivity.
  - apply orb_false_iff in Hlf as [Hc1 Hlf].
    apply orb_false_iff in Hcr as [Hc2 Hcr].
    destruct (Ascii.eqb c ">"); [reflexivity|].
    unfold is_line_terminator. rewrite Hc1, Hc2. simpl. auto.
Qed.

Lemma replace_inside (body rest : string) :
  mem_char ">" body = false ->
  replace_placeholders true (body ++ String ">" rest)
  = replace_placeholders false rest.
Proof.
  induction body as [|c body IH]; simpl; intros H.
  - reflexivity.
  - apply orb_false_iff in H as [Hc H]. rewrite Hc. auto.
Qed.

Lemma count_inside (body rest : string) :
  mem_char ">" body = false ->
  count_spans true (body ++ String ">" rest) = count_spans false rest.
Proof.
  induction body as [|c body IH]; simpl; intros H.
  - reflexivity.
  - apply orb_false_iff in H as [Hc H]. rewrite Hc. auto.
Qed.

Lemma replace_render (ps : list piece) :
  forallb well_formed ps = true ->
  replace_placeholders false (render ps) = wildcarded ps.
Proof.
  induction ps as [|[c|body] ps IH]; intros H; [reflexivity| |].
  - simpl in H. apply andb_true_iff in H as [Hc H].
    apply andb_true_iff in Hc as [Hlt _]. apply negb_true_iff in Hlt.
    simpl. rewrite Hlt. simpl. now rewrite IH.
  - simpl in H. apply andb_true_iff in H as [Hb H].
    apply andb_true_iff in Hb as [Hb Hcr].
    apply andb_true_iff in Hb as [Hgt Hlf].
    apply negb_true_iff in Hgt, Hlf, Hcr.
    simpl. rewrite (has_close_body body _ Hlf Hcr).
    rewrite (replace_inside body _ Hgt). now rewrite IH.
Qed.

Lemma count_render (ps : list piece) :
  forallb well_formed ps = true ->
  count_spans false (render ps) = placeholders ps.
Proof.
  induction ps as [|[c|body] ps IH]; intros H; [reflexivity| |].
  - simpl in H. apply andb_true_iff in H as [Hc H].
    apply andb_true_iff in Hc as [Hlt _]. apply negb_true_iff in Hlt.
    simpl. rewrite Hlt. simpl. auto.
  - simpl in H. apply andb_true_iff in H as [Hb H].
    apply andb_true_iff in Hb as [Hb Hcr].
    apply andb_true_iff in Hb as [Hgt Hlf].
    apply negb_true_iff in Hgt, Hlf, Hcr.
    simpl. rewrite (has_close_body body _ Hlf Hcr).
    rewrite (count_inside body _ Hgt). now rewrite IH.
Qed.

Lemma starts_with_plus_wildcarded (ps : list piece) (suffix : string) :
  starts_with_plus suffix = false ->
  starts_with_plus (wildcarded ps ++ suffix)
  = match ps with
    | Text d :: _ => Ascii.eqb d "+"
    | _ => false
    end.
Proof.
  destruct ps as [|[d|body] ps]; simpl; auto.
Qed.

Lemma count_wildcards_wildcarded (ps : list piece) (suffix : string) :
  starts_with_plus suffix = false ->
  count_wildcards (wildcarded ps ++ suffix)
  = placeholders ps + literal_wildcards ps + count_wildcards suffix.
Proof.
  intros Hs. induction ps as [|[c|body] ps IH].
  - reflexivity.
  - change (wildcarded (Text c :: ps) ++ suffix)
      with (String c (wildcarded ps ++ suffix)).
    cbn [count_wildcards]. rewrite IH.
    rewrite (starts_with_plus_wildcarded ps suffix Hs).
    destruct ps as [|[d|b] ps]; cbn [literal_wildcards placeholders];
      rewrite ?andb_false_r; lia.
  - change (wildcarded (Placeholder body :: ps) ++ suffix)
      with (String "." (String "+" (wildcarded ps ++ suffix))).
    cbn [count_wildcards]. rewrite IH.
    cbn [literal_wildcards placeholders]. simpl. lia.
Qed.

Lemma mem_char_app (x : ascii) (a b : string) :
  mem_char x (a ++ b) = mem_char x a || mem_char x b.
Proof.
  induction a as [|c a IH]; simpl; [reflexivity|].
  rewrite IH. now rewrite orb_assoc.
Qed.

Lemma no_delimiter_wildcarded (ps : list piece) :
  forallb well_formed ps = true ->
  mem_char "<" (wildcarded ps) = false /\ mem_char ">" (wildcarded ps) = false.
Proof.
  induction ps as [|[c|body] ps IH]; intros H; [split; reflexivity| |].
  - simpl in H. apply andb_true_iff in H as [Hc H].
    apply andb_true_iff in Hc as [Hlt Hgt].
    apply negb_true_iff in Hlt, Hgt.
    destruct (IH H) as [IH1 IH2]. simpl. now rewrite Hlt, Hgt, IH1, IH2.
  - simpl in H. apply andb_true_iff in H as [_ H].
    destruct (IH H) as [IH1 IH2]. simpl. now rewrite IH1, IH2.
Qed.

End PatternBuilder.

(** C4, as amended: for a name whose [<] and [>] all delimit its [k]
    placeholders and whose plain text holds no [.+] of its own, the pattern
    is the name with [.+] in each placeholder position between the fixed
    prefix and suffix; it holds exactly [k] tokens [.+] and neither [<] nor
    [>].  The regular expression of the builder finds exactly these [k]
    spans. *)
Theorem C4_pattern_of_well_formed_name (ps : list piece) :
  forallb well_formed ps = true ->
  literal_wildcards ps = 0 ->
  count_spans false (render ps) = placeholders ps
  /\ createStepNamePattern (render ps) = "^\*\s+" ++ wildcarded ps ++ "\s*$"
  /\ count_wildcards (createStepNamePattern (render ps)) = placeholders ps
  /\ mem_char "<" (createStepNamePattern (render ps)) = false
  /\ mem_char ">" (createStepNamePattern (render ps)) = false.
Proof.
  intros Hwf Hlit.
  assert (Hpat : createStepNamePattern (render ps)
                 = "^\*\s+" ++ wildcarded ps ++ "\s*$").
  { unfold createStepNamePattern. now rewrite replace_render. }
  split; [now apply count_render|].
  split; [exact Hpat|].
  rewrite Hpat. destruct (no_delimiter_wildcarded ps Hwf) as [Hlt Hgt].
  repeat split.
  - change ("^\*\s+" ++ wildcarded ps ++ "\s*$")
      with (String "^" (String "\" (String "*" (String "\" (String "s"
             (String "+" (wildcarded ps ++ "\s*$"))))))).
    cbn [count_wildcards]. cbn [Ascii.eqb Bool.eqb andb].
    rewrite count_wildcards_wildcarded by reflexivity.
    rewrite Hlit. simpl. lia.
  - rewrite !mem_char_app, Hlt. reflexivity.
  - rewrite !mem_char_app, Hgt. reflexivity.
Qed.

Lemma C4_pattern_of_add_name :
  forallb well_formed add_name = true
  /\ literal_wildcards add_name = 0
  /\ render add_name = "Add <a> and <b>"
  /\ count_wildcards (createStepNamePattern (render add_name)) = 2.
Proof.
  split; [reflexivity|]. split; [reflexivity|]. split; [reflexivity|].
  exact (proj1 (proj2 (proj2
           (C4_pattern_of_well_formed_name add_name eq_refl eq_refl)))).
Defined.

(** C4, as stated, fails: the name [1 < 2] has no placeholder span and its
    pattern keeps the [<]; the name [a.+b] has none either and its pattern
    holds one [.+]. *)
Lemma C4_stray_delimiter_stays :
  count_spans false "1 < 2" = 0
  /\ createStepNamePattern "1 < 2" = "^\*\s+1 < 2\s*$"
  /\ mem_char "<" (createStepNamePattern "1 < 2") = true
  /\ count_spans false "a.+b" = 0
  /\ count_wildcards (createStepNamePattern "a.+b") = 1.
Proof. repeat split. Qed.

(** C7: the pattern built for [Add <a> and <b>], and the three lines:
    [grep -E] selects [* Add 3 and 4] and selects neither [Add 3 and 4] nor
    [* Add 3 and]. *)
Theorem C7_add_pattern_lines :
  createStepNamePattern "Add <a> and <b>" = "^\*\s+Add .+ and .+\s*$"
  /\ grep (createStepNamePattern "Add <a> and <b>") ("* Add 3 and 4" ++ newline)
     = ("* Add 3 and 4" ++ newline, 0)
  /\ grep (createStepNamePattern "Add <a> and <b>") ("Add 3 and 4" ++ newline)
     = ("", 1)
  /\ grep (createStepNamePattern "Add <a> and <b>") ("* Add 3 and" ++ newline)
     = ("", 1).
Proof. vm_compute. repeat split. Qed.

(* ================================================================== *)
(** ** Properties of the monad operations *)

Section Operations.

Lemma settle_console (w : world) : w_console (settle w) = w_console w.
Proof.
  unfold settle. destruct (w_pending w) as [|c rest]; [reflexivity|].
  destruct (run c (w_fs w)); reflexivity.
Qed.

Lemma settle_n_console (n : nat) (w : world) :
  w_console (settle_n n w) = w_console w.
Proof.
  revert w. induction n as [|n IH]; intros w; simpl; [reflexivity|].
  now rewrite IH, settle_console.
Qed.

Lemma settle_n_quiet (n : nat) (w : world) :
  w_pending w = [] -> settle_n n w = w.
Proof.
  intros H. induction n as [|n IH]; simpl; [reflexivity|].
  unfold settle at 1. rewrite H. exact IH.
Qed.

Lemma awaited_console (c : command) (w : world) :
  w_console (awaited c w) = w_console w.
Proof.
  unfold awaited, next_turn, record. simpl.
  destruct (w_schedule w); rewrite settle_n_console; reflexivity.
Qed.

Lemma awaited_quiet (c : command) (w : world) :
  w_pending w = [] ->
  w_fs (awaited c w) = w_fs w /\ w_pending (awaited c w) = [].
Proof.
  intros H. unfold awaited, next_turn, record. simpl.
  destruct (w_schedule w); rewrite settle_n_quiet by exact H; auto.
Qed.

(** What [await $`c`] does, in one equation: it returns the output of [c]
    in the world [c] ran in, or throws it when the status is not zero. *)
Lemma sh_outcome (c : command) (w : world) :
  let w2 := awaited c w in
  let out := fst (run c (w_fs w2)) in
  exists w',
    sh c w = (if (exitCode out =? 0)%nat then Returned out
              else Thrown (ProcessError out), w')
    /\ w_console w' = w_console w
    /\ w_pending w' = w_pending w2
    /\ w_fs w' = snd (run c (w_fs w2)).
Proof.
  intros w2 out. unfold sh. fold w2. subst out.
  destruct (run c (w_fs w2)) as [out fs'] eqn:E. simpl.
  destruct (exitCode out =? 0)%nat; eexists; (split; [reflexivity|]);
    simpl; subst w2; rewrite awaited_console; auto.
Qed.

Lemma printed_nil (w : world) : printed [] w = w.
Proof. unfold printed. rewrite app_nil_r. now destruct w. Qed.

Lemma printed_printed (a b : list string) (w : world) :
  printed b (printed a w) = printed (a ++ b)%list w.
Proof. unfold printed. simpl. now rewrite app_assoc. Qed.

(** Printing a list of lines, one [console.log] each. *)
Lemma for_each_log {A} (f : A -> string) (xs : list A) (w : world) :
  for_each (fun x => log (f x)) xs w = (Returned tt, printed (map f xs) w).
Proof.
  revert w. induction xs as [|x xs IH]; intros w; simpl.
  - unfold ret. now rewrite printed_nil.
  - unfold bind, log. rewrite IH. now rewrite printed_printed.
Qed.

Lemma for_each_for_each_log {A B} (g : A -> list B) (f : B -> string)
      (xs : list A) (w : world) :
  for_each (fun x => for_each (fun y => log (f y)) (g x)) xs w
  = (Returned tt, printed (map f (flat_map g xs)) w).
Proof.
  revert w. induction xs as [|x xs IH]; intros w; simpl.
  - unfold ret. now rewrite printed_nil.
  - unfold bind. rewrite for_each_log, IH, printed_printed.
    now rewrite map_app.
Qed.

End Operations.

(* ================================================================== *)
(** ** Properties of the usage check *)

Section UsageCheck.

Lemma pipefail_first_failed (c1 c2 : nat) :
  c1 <> 0 -> pipefail [c1; c2; 0] <> 0.
Proof.
  intros H. unfold pipefail. simpl.
  destruct c1 as [|c1]; [congruence|]. simpl.
  destruct c2; simpl; discriminate.
Qed.

Lemma pipefail_no_match (c1 : nat) : pipefail [c1; 1; 0] <> 0.
Proof. unfold pipefail. simpl. destruct c1; simpl; discriminate. Qed.

(** [isUnused] in one equation: it returns, and its answer is "the pipeline
    did not exit with zero". *)
Lemma isUnused_outcome (d : definition) (specsDir : string) (w : world) :
  let fs := w_fs (awaited (CmdGrepUsage specsDir (pattern d)) w) in
  exists w',
    isUnused d specsDir w
    = (Returned
         (negb (exitCode (grep_usage_pipeline fs specsDir (pattern d)) =? 0)%nat),
       w')
    /\ w_console w' = w_console w.
Proof.
  intros fs. unfold isUnused, try_catch, bind.
  destruct (sh_outcome (CmdGrepUsage specsDir (pattern d)) w)
    as (w' & Hsh & Hcon & _ & _).
  rewrite Hsh. simpl. fold fs.
  destruct (exitCode (grep_usage_pipeline fs specsDir (pattern d)) =? 0)%nat;
    exists w'; split; auto.
Qed.

End UsageCheck.

(** C1, as amended: [isUnused] never raises.  It answers [true] exactly when
    the pipeline [find | grep | wc] ends with a status that is not zero;
    that is so when the read of the corpus fails ([find] or its [cat] ends
    with a status that is not zero) and also when no line matches
    ([grep] ends with 1), and the answer is the same [true] in both
    cases. *)
Theorem C1_isUnused_turns_every_failure_into_unused
        (d : definition) (specsDir : string) (w : world) :
  let fs := w_fs (awaited (CmdGrepUsage specsDir (pattern d)) w) in
  let status := exitCode (grep_usage_pipeline fs specsDir (pattern d)) in
  (exists w', isUnused d specsDir w = (Returned (negb (status =? 0)%nat), w'))
  /\ (snd (find_exec_cat fs specsDir) <> 0 ->
      exists w', isUnused d specsDir w = (Returned true, w'))
  /\ (snd (grep (pattern d) (fst (find_exec_cat fs specsDir))) = 1 ->
      exists w', isUnused d specsDir w = (Returned true, w')).
Proof.
  intros fs status.
  destruct (isUnused_outcome d specsDir w) as (w' & H & _).
  fold fs in H. fold status in H.
  assert (Hstatus : status
                    = pipefail [snd (find_exec_cat fs specsDir);
                                snd (grep (pattern d)
                                          (fst (find_exec_cat fs specsDir)));
                                0]).
  { subst status. unfold grep_usage_pipeline.
    destruct (find_exec_cat fs specsDir) as [text c1]. simpl.
    destruct (grep (pattern d) text) as [sel c2]. reflexivity. }
  split; [exists w'; exact H|]. split.
  - intros Hfail. exists w'. rewrite H. repeat f_equal.
    apply negb_true_iff, Nat.eqb_neq. rewrite Hstatus.
    now apply pipefail_first_failed.
  - intros Hnone. exists w'. rewrite H. repeat f_equal.
    apply negb_true_iff, Nat.eqb_neq. rewrite Hstatus, Hnone.
    apply pipefail_no_match.
Qed.

Lemma C1_denied_file_is_absorbed :
  snd (find_exec_cat (w_fs (awaited (CmdGrepUsage "p/specs" (pattern login))
                                    (fresh locked_project [])))
                     "p/specs") <> 0
  /\ exists w',
       isUnused login "p/specs" (fresh locked_project []) = (Returned true, w').
Proof.
  assert (H : snd (find_exec_cat
                     (w_fs (awaited (CmdGrepUsage "p/specs" (pattern login))
                                    (fresh locked_project [])))
                     "p/specs") <> 0) by (vm_compute; discriminate).
  split; [exact H|].
  exact (proj1 (proj2 (C1_isUnused_turns_every_failure_into_unused
                         login "p/specs" (fresh locked_project []))) H).
Defined.

(** C1, as stated, fails: one specification file cannot be opened, so the
    read of the corpus fails ([find] ends with 1) although the file that can
    be read holds the line [* Login as admin]; [isUnused] answers [true]
    for the step, the run does not abort and reports the step as unused. *)
Lemma C1_failed_read_reported_as_unused :
  find_exec_cat locked_project "p/specs" = ("* Login as admin" ++ newline, 1)
  /\ grep (pattern login) ("* Login as admin" ++ newline)
     = ("* Login as admin" ++ newline, 0)
  /\ fst (isUnused login "p/specs" (fresh locked_project [])) = Returned true
  /\ fst (exec (fun dir => dir) "p" (fresh locked_project [])) = Returned tt
  /\ w_console (snd (exec (fun dir => dir) "p" (fresh locked_project [])))
     = [rule; "Target project directory:  p";
        "Src directory:  p/src/test/kotlin"; "Specs directory:  p/specs";
        rule; "Format done." ++ newline;
        "Unused step names:"; "* Login as admin"; "";
        "Unused concepts:"; "";
        rule; "Unused steps: 1 / 1"; "Unused step names: 1 / 1";
        "Unused concepts: 0 / 0"; rule].
Proof. vm_compute. repeat split. Qed.

(* ================================================================== *)
(** ** Properties of the step report *)

Section StepReport.

Variable specsDir : string.

Lemma checkUsage_outcome (d : definition) (w : world) :
  exists u w',
    checkUsage specsDir d w = (Returned (mkChecked d u), w')
    /\ w_console w' = w_console w.
Proof.
  destruct (isUnused_outcome d specsDir w) as (w' & H & Hcon).
  unfold checkUsage, bind. rewrite H. eexists _, w'. split; [reflexivity|auto].
Qed.

Lemma check_all_outcome (step : list definition) (w : world) :
  exists cs w',
    traverse (checkUsage specsDir) step w = (Returned cs, w')
    /\ map checked_definition cs = step
    /\ w_console w' = w_console w.
Proof.
  revert w. induction step as [|d step IH]; intros w; simpl.
  - exists [], w. auto.
  - destruct (checkUsage_outcome d w) as (u & w1 & H1 & C1).
    destruct (IH w1) as (cs & w2 & H2 & Hmap & C2).
    unfold bind. rewrite H1, H2. exists (mkChecked d u :: cs), w2.
    simpl. rewrite Hmap. repeat split; congruence.
Qed.

Lemma check_groups_outcome (steps : list (list definition)) (w : world) :
  exists css w',
    traverse (fun step => traverse (checkUsage specsDir) step) steps w
    = (Returned css, w')
    /\ map (map checked_definition) css = steps
    /\ w_console w' = w_console w.
Proof.
  revert w. induction steps as [|step steps IH]; intros w; simpl.
  - exists [], w. auto.
  - destruct (check_all_outcome step w) as (cs & w1 & H1 & M1 & C1).
    destruct (IH w1) as (css & w2 & H2 & M2 & C2).
    unfold bind. rewrite H1, H2. exists (cs :: css), w2.
    simpl. rewrite M1, M2. repeat split; congruence.
Qed.

(** A group none of whose members is unused prints nothing. *)
Lemma unused_members_of_flagged (css : list (list checked)) :
  flat_map (filter unused) (filter (fun step => existsb unused step) css)
  = filter unused (concat css).
Proof.
  induction css as [|cs css IH]; simpl; [reflexivity|].
  rewrite filter_app, <- IH.
  destruct (existsb unused cs) eqn:E; simpl; [reflexivity|].
  assert (Hnone : filter unused cs = []).
  { clear -E. induction cs as [|c cs IH]; simpl in *; [reflexivity|].
    apply orb_false_iff in E as [Hc E]. rewrite Hc. auto. }
  now rewrite Hnone.
Qed.

Lemma printUnusedSteps_outcome (steps : list (list checked)) (w : world) :
  printUnusedSteps steps w
  = (Returned tt,
     printed ("Unused step names:"
              :: map (fun c => ("* " ++ stepName (checked_definition c))%string)
                     (flat_map (filter unused) steps)
              ++ [""])%list w).
Proof.
  unfold printUnusedSteps, bind, log.
  rewrite (for_each_for_each_log (filter unused)
             (fun c => "* " ++ stepName (checked_definition c))).
  now rewrite !printed_printed.
Qed.

End StepReport.

(* ================================================================== *)
(** ** Properties of the extraction *)

Section Extraction.

Lemma find_name_nothing (fs : fsys) (dir suffix : string) :
  is_dir fs dir = true -> fst (find_name fs dir suffix) = [] ->
  find_name fs dir suffix = ([], 0).
Proof.
  unfold find_name. intros Hdir. rewrite Hdir. simpl. now intros ->.
Qed.

Lemma find_steps_pipeline_nothing (fs : fsys) (srcDir : string) :
  is_dir fs srcDir = true -> fst (find_name fs srcDir "kt") = [] ->
  find_steps_pipeline fs srcDir = mkOutput "" 1.
Proof.
  intros Hdir Hnone. unfold find_steps_pipeline.
  rewrite (find_name_nothing fs srcDir "kt" Hdir Hnone). reflexivity.
Qed.

Lemma find_concept_files_nothing (fs : fsys) (specsDir : string) :
  is_dir fs specsDir = true -> fst (find_name fs specsDir ".cpt") = [] ->
  find_concept_files fs specsDir = mkOutput "" 0.
Proof.
  intros Hdir Hnone. unfold find_concept_files.
  rewrite (find_name_nothing fs specsDir ".cpt" Hdir Hnone). reflexivity.
Qed.

Lemma findConcepts_nothing (specsDir : string) (w : world) :
  is_dir (w_fs (awaited (CmdFindConceptFiles specsDir) w)) specsDir = true ->
  fst (find_name (w_fs (awaited (CmdFindConceptFiles specsDir) w))
                 specsDir ".cpt") = [] ->
  exists w',
    findConcepts specsDir w = (Returned [], w')
    /\ w_console w' = w_console w.
Proof.
  intros Hdir Hnone. unfold findConcepts, bind.
  destruct (sh_outcome (CmdFindConceptFiles specsDir) w)
    as (w' & Hsh & Hcon & _ & _).
  rewrite Hsh. simpl.
  rewrite (find_concept_files_nothing _ specsDir Hdir Hnone). simpl.
  exists w'. auto.
Qed.

End Extraction.

(** C3: when the source directory is there and [find] lists nothing in it
    that ends in [kt], the pipeline of [findSteps] ends with status 1 (its
    last stage, [grep -o], selects nothing) and [findSteps] raises the
    [ProcessOutput] of zx instead of returning the empty sequence. *)
Theorem C3_findSteps_raises_without_sources (srcDir : string) (w : world) :
  is_dir (w_fs (awaited (CmdFindSteps srcDir) w)) srcDir = true ->
  fst (find_name (w_fs (awaited (CmdFindSteps srcDir) w)) srcDir "kt") = [] ->
  exists w',
    findSteps srcDir w = (Thrown (ProcessError (mkOutput "" 1)), w').
Proof.
  intros Hdir Hnone. unfold findSteps, bind.
  destruct (sh_outcome (CmdFindSteps srcDir) w) as (w' & Hsh & _).
  rewrite Hsh. simpl.
  rewrite (find_steps_pipeline_nothing _ srcDir Hdir Hnone). simpl.
  exists w'. reflexivity.
Qed.

Lemma C3_sourceless_project_raises :
  is_dir (w_fs (awaited (CmdFindSteps "p/src/test/kotlin")
                        (fresh sourceless_project [])))
         "p/src/test/kotlin" = true
  /\ fst (find_name (w_fs (awaited (CmdFindSteps "p/src/test/kotlin")
                                   (fresh sourceless_project [])))
                    "p/src/test/kotlin" "kt") = []
  /\ exists w',
       findSteps "p/src/test/kotlin" (fresh sourceless_project [])
       = (Thrown (ProcessError (mkOutput "" 1)), w').
Proof.
  split; [reflexivity|]. split; [reflexivity|].
  apply (C3_findSteps_raises_without_sources
           "p/src/test/kotlin" (fresh sourceless_project []));
    reflexivity.
Defined.

(** The whole run on the project without test sources: [exec] ends with the
    exception of [findSteps], after the heading and the format message, and
    prints no report. *)
Lemma exec_aborts_without_sources :
  fst (exec (fun dir => dir) "p" (fresh sourceless_project []))
  = Thrown (ProcessError (mkOutput "" 1))
  /\ w_console (snd (exec (fun dir => dir) "p" (fresh sourceless_project [])))
     = [rule; "Target project directory:  p";
        "Src directory:  p/src/test/kotlin"; "Specs directory:  p/specs";
        rule; "Format done." ++ newline].
Proof. vm_compute. split; reflexivity. Qed.

(** C8: the concept file holds the header [# Checkout Flow] (and two steps);
    [findConcepts] yields the one declaration named [Checkout Flow], whose
    pattern selects the line [* Checkout Flow] and does not select
    [* Checkout Flows]. *)
Theorem C8_checkout_flow_concept :
  fst (findConcepts "p/specs" (fresh concept_project []))
  = Returned [mkDefinition "Checkout Flow" "^\*\s+Checkout Flow\s*$"]
  /\ createStepNamePattern "Checkout Flow" = "^\*\s+Checkout Flow\s*$"
  /\ grep (createStepNamePattern "Checkout Flow") ("* Checkout Flow" ++ newline)
     = ("* Checkout Flow" ++ newline, 0)
  /\ grep (createStepNamePattern "Checkout Flow") ("* Checkout Flows" ++ newline)
     = ("", 1).
Proof. vm_compute. repeat split. Qed.

(* ================================================================== *)
(** ** Properties of the summary and of the run *)

Section Summary.

Lemma fold_left_lengths {A B} (g : A -> list B) (xs : list A) (acc : nat) :
  fold_left (fun sum x => sum + List.length (g x)) xs acc
  = acc + List.length (flat_map g xs).
Proof.
  revert acc. induction xs as [|x xs IH]; intros acc; simpl; [lia|].
  rewrite IH, length_app. lia.
Qed.

(** The lines of the summary: the three counts when a step name or a
    concept is unused, [ALL CLEAN!] when none is. *)
Lemma printSummary_outcome (steps : list (list definition))
      (unusedSteps : list (list checked)) (concepts : list definition)
      (unusedConcepts : list checked) (w : world) :
  let names := List.length (concat steps) in
  let unusedNames := List.length (flat_map (filter unused) unusedSteps) in
  printSummary steps unusedSteps concepts unusedConcepts w
  = (Returned tt,
     printed
       (rule
        :: (if (0 <? unusedNames)%nat || (0 <? List.length unusedConcepts)%nat
            then [("Unused steps: " ++ of_nat (List.length unusedSteps)
                   ++ " / " ++ of_nat (List.length steps))%string;
                  ("Unused step names: " ++ of_nat unusedNames
                   ++ " / " ++ of_nat names)%string;
                  ("Unused concepts: " ++ of_nat (List.length unusedConcepts)
                   ++ " / " ++ of_nat (List.length concepts))%string]
            else ["ALL CLEAN!"])
        ++ [rule])%list w).
Proof.
  intros names unusedNames. unfold printSummary.
  rewrite (fold_left_lengths (fun step => step) steps 0).
  rewrite (fold_left_lengths (filter unused) unusedSteps 0).
  replace (flat_map (fun step => step) steps) with (concat steps)
    by (induction steps as [|x xs IH]; simpl; [reflexivity|now rewrite IH]).
  simpl. fold names. fold unusedNames.
  unfold bind, log.
  destruct ((0 <? unusedNames)%nat || (0 <? List.length unusedConcepts)%nat);
    now rewrite !printed_printed.
Qed.

Lemma printUnusedConcepts_outcome (concepts : list checked) (w : world) :
  printUnusedConcepts concepts w
  = (Returned tt,
     printed ("Unused concepts:"
              :: map (fun c => ("# " ++ stepName (checked_definition c))%string)
                     concepts
              ++ [""])%list w).
Proof.
  unfold printUnusedConcepts, bind, log.
  rewrite (for_each_log
             (fun c => ("# " ++ stepName (checked_definition c))%string)).
  now rewrite !printed_printed.
Qed.

Variable normalize : string -> string.

(** [exec] is its first phase followed by the report on concepts and the
    summary. *)
Lemma exec_after_steps_phase (projectDir : string) (w : world) :
  exec normalize projectDir w
  = bind (steps_phase normalize projectDir)
         (fun found =>
            let specsDir := normalize (projectDir ++ "/specs") in
            concepts <- findConcepts specsDir ;;
            unusedConcepts <-
              (if (0 <? List.length concepts)%nat
               then findUnusedConcepts concepts specsDir
               else ret []) ;;
            printUnusedConcepts unusedConcepts ;;;
            printSummary (fst found) (snd found) concepts unusedConcepts) w.
Proof.
  unfold exec, steps_phase, bind.
  repeat match goal with
         | |- context [match ?m ?x with _ => _ end] =>
             lazymatch type of x with
             | world => destruct (m x) as [[?|?] ?]; try reflexivity
             end
         end.
Qed.

End Summary.




(* ================================================================== *)
(** ** Properties of the newline normalization *)

Section Normalization.

Lemma assoc_append_other (p target extra : string)
      (l : list (string * file)) :
  target <> p -> assoc p (append_to target extra l) = assoc p l.
Proof.
  intros Hne. induction l as [|[q f] l IH]; simpl.
  - destruct (String.eqb_spec target p); [contradiction|reflexivity].
  - destruct (String.eqb_spec q target) as [->|Hq].
    + destruct f; simpl; destruct (String.eqb_spec target p);
        try contradiction; reflexivity.
    + simpl. destruct (String.eqb_spec q p); [reflexivity|exact IH].
Qed.

Lemma assoc_append_same (p extra data : string) (l : list (string * file)) :
  assoc p l = Some (Readable data) ->
  assoc p (append_to p extra l) = Some (Readable (data ++ extra)).
Proof.
  induction l as [|[q f] l IH]; simpl; [discriminate|].
  destruct (String.eqb_spec q p) as [->|Hq].
  - intros [= ->]. simpl. now rewrite String.eqb_refl.
  - intros H. simpl. destruct (String.eqb_spec q p); [contradiction|auto].
Qed.

(** A file that ends with a newline has one line counted in its last byte. *)
Lemma terminated_counts_one (fs : fsys) (p data : string) :
  read fs p = Some (Readable data) -> ends_with_newline data = true ->
  wc_l (tail_c1 fs p) = 1.
Proof.
  intros Hread Hend. unfold tail_c1. rewrite Hread.
  unfold ends_with_newline in Hend.
  destruct (last_char data) as [c|]; [|discriminate].
  apply Ascii.eqb_eq in Hend. subst c. reflexivity.
Qed.

(** A file that does not, an empty file for one, has none counted. *)
Lemma unterminated_counts_none (fs : fsys) (p data : string) :
  read fs p = Some (Readable data) -> ends_with_newline data = false ->
  wc_l (tail_c1 fs p) = 0.
Proof.
  intros Hread Hend. unfold tail_c1. rewrite Hread.
  unfold ends_with_newline in Hend.
  destruct (last_char data) as [c|]; [|reflexivity].
  unfold wc_l. simpl. now rewrite Hend.
Qed.

Lemma ends_with_newline_app (data : string) :
  ends_with_newline (data ++ newline) = true.
Proof.
  unfold ends_with_newline.
  assert (H : last_char (data ++ newline) = Some LF).
  { induction data as [|c data IH]; [reflexivity|].
    simpl. destruct (data ++ newline) eqn:E; [|exact IH].
    destruct data; discriminate. }
  now rewrite H.
Qed.

Lemma echo_append_other (fs : fsys) (p target : string) :
  target <> p -> read (echo_append fs target) p = read fs p.
Proof.
  intros Hne. unfold echo_append.
  destruct (read fs target); [|destruct (can_create fs target)];
    unfold read; simpl; auto using assoc_append_other.
Qed.

(** The step on a file that ends with a newline changes nothing at all. *)
Lemma append_newline_terminated (fs : fsys) (p data : string) :
  read fs p = Some (Readable data) -> ends_with_newline data = true ->
  append_newline fs p = (mkOutput "" 0, fs).
Proof.
  intros Hread Hend. unfold append_newline.
  now rewrite (terminated_counts_one fs p Hread Hend).
Qed.

(** The step on a file that does not gives it one. *)
Lemma append_newline_unterminated (fs : fsys) (p data : string) :
  read fs p = Some (Readable data) -> ends_with_newline data = false ->
  read (snd (append_newline fs p)) p = Some (Readable (data ++ newline)).
Proof.
  intros Hread Hend. unfold append_newline.
  rewrite (unterminated_counts_none fs p Hread Hend). simpl.
  unfold echo_append. rewrite Hread. unfold read. simpl.
  now apply assoc_append_same.
Qed.

(** No command of the script touches a file that ends with a newline. *)
Lemma run_keeps_terminated (c : command) (fs : fsys) (p data : string) :
  read fs p = Some (Readable data) -> ends_with_newline data = true ->
  read (snd (run c fs)) p = Some (Readable data).
Proof.
  intros Hread Hend.
  destruct c as [d|d|d|target|d|d pat]; simpl; try exact Hread.
  destruct (String.eqb_spec target p) as [->|Hne].
  - now rewrite (append_newline_terminated fs p Hread Hend).
  - unfold append_newline.
    destruct (wc_l (tail_c1 fs target) =? 0)%nat; simpl; [|exact Hread].
    now rewrite echo_append_other.
Qed.

(** The same for every file that can be read, written or not. *)
Lemma append_newline_terminated_file (fs : fsys) (p data : string) (f : file) :
  read fs p = Some f -> contents f = Some data ->
  ends_with_newline data = true ->
  append_newline fs p = (mkOutput "" 0, fs).
Proof.
  intros Hread Hdata Hend. unfold append_newline, tail_c1. rewrite Hread.
  unfold ends_with_newline in Hend.
  destruct f as [d|d|d|]; try discriminate Hdata;
    injection Hdata as ->;
    (destruct (last_char data) as [c|]; [|discriminate]);
    apply Ascii.eqb_eq in Hend; subst c; reflexivity.
Qed.

Lemma assoc_append_unwritable (p extra : string) (f : file)
      (l : list (string * file)) :
  assoc p l = Some f -> writable f = false ->
  assoc p (append_to p extra l) = Some f.
Proof.
  intros Hread Hw. induction l as [|[q g] l IH]; simpl in *; [discriminate|].
  destruct (String.eqb_spec q p) as [->|Hq].
  - injection Hread as ->.
    destruct f; try discriminate Hw; simpl; now rewrite String.eqb_refl.
  - simpl. destruct (String.eqb_spec q p); [contradiction|auto].
Qed.

(** No command of the script changes a file that cannot be written. *)
Lemma run_keeps_unwritable (c : command) (fs : fsys) (p : string) (f : file) :
  read fs p = Some f -> writable f = false ->
  read (snd (run c fs)) p = Some f.
Proof.
  intros Hread Hw.
  destruct c as [d|d|d|target|d|d pat]; simpl; try exact Hread.
  unfold append_newline.
  destruct (wc_l (tail_c1 fs target) =? 0)%nat; simpl; [|exact Hread].
  destruct (String.eqb_spec target p) as [->|Hne].
  - unfold echo_append. rewrite Hread. unfold read. simpl.
    now apply assoc_append_unwritable.
  - now rewrite echo_append_other.
Qed.

(** No command of the script changes a file that can be read and ends with
    a newline. *)
Lemma run_keeps_terminated_file (c : command) (fs : fsys) (p data : string)
      (f : file) :
  read fs p = Some f -> contents f = Some data ->
  ends_with_newline data = true ->
  read (snd (run c fs)) p = Some f.
Proof.
  intros Hread Hdata Hend.
  destruct c as [d|d|d|target|d|d pat]; simpl; try exact Hread.
  destruct (String.eqb_spec target p) as [->|Hne].
  - now rewrite (append_newline_terminated_file fs p Hread Hdata Hend).
  - unfold append_newline.
    destruct (wc_l (tail_c1 fs target) =? 0)%nat; simpl; [|exact Hread].
    now rewrite echo_append_other.
Qed.

(** *** Invariants of the files along a run *)

Variable Q : fsys -> Prop.
Hypothesis Q_run : forall c fs, Q fs -> Q (snd (run c fs)).

Lemma settle_keeps (w : world) : Q (w_fs w) -> Q (w_fs (settle w)).
Proof.
  intros H. unfold settle. destruct (w_pending w) as [|c rest]; [exact H|].
  specialize (Q_run c H). destruct (run c (w_fs w)). exact Q_run.
Qed.

Lemma settle_n_keeps (n : nat) (w : world) :
  Q (w_fs w) -> Q (w_fs (settle_n n w)).
Proof.
  revert w. induction n as [|n IH]; intros w H; simpl; auto using settle_keeps.
Qed.

Lemma awaited_keeps (c : command) (w : world) :
  Q (w_fs w) -> Q (w_fs (awaited c w)).
Proof.
  intros H. unfold awaited, next_turn, record. simpl.
  destruct (w_schedule w); apply settle_n_keeps; exact H.
Qed.

Lemma sh_keeps (c : command) (w : world) :
  Q (w_fs w) -> Q (w_fs (snd (sh c w))).
Proof.
  intros H. destruct (sh_outcome c w) as (w' & Hsh & _ & _ & Hfs).
  rewrite Hsh. simpl. rewrite Hfs. apply Q_run, awaited_keeps, H.
Qed.

Lemma findSpecFiles_keeps (specsDir : string) (w : world) :
  Q (w_fs w) -> Q (w_fs (snd (findSpecFiles specsDir w))).
Proof.
  intros H. unfold findSpecFiles, bind.
  pose proof (sh_keeps (CmdFindSpecFiles specsDir) w H) as Hsh.
  destruct (sh (CmdFindSpecFiles specsDir) w) as [[out|e] w']; exact Hsh.
Qed.

End Normalization.

Section Format.

(** The world after the commands [cs] have been started, none awaited. *)
Lemma for_each_spawn_outcome {A} (g : A -> command) (xs : list A) (w : world) :
  for_each (fun x => spawn (g x)) xs w
  = (Returned tt,
     mkWorld (w_fs w) (w_pending w ++ map g xs)%list (w_console w)
             (w_trace w ++ map Started (map g xs))%list (w_schedule w)).
Proof.
  revert w. induction xs as [|x xs IH]; intros w; simpl.
  - unfold ret. rewrite !app_nil_r. now destruct w.
  - unfold bind, spawn at 1. rewrite IH. simpl.
    now rewrite <- !app_assoc.
Qed.

(** When [formatForStepSearch] returns, the files are as the listing found
    them and every append it has started is still pending. *)
Lemma formatForStepSearch_outcome (specsDir : string) (w w1 : world)
      (paths : list string) :
  findSpecFiles specsDir w = (Returned paths, w1) ->
  formatForStepSearch specsDir w
  = (Returned tt,
     printed ["Format done." ++ newline]
       (mkWorld (w_fs w1)
                (w_pending w1 ++ map CmdAppendNewline paths)%list
                (w_console w1)
                (w_trace w1 ++ map Started (map CmdAppendNewline paths))%list
                (w_schedule w1))).
Proof.
  intros H. unfold formatForStepSearch, bind. rewrite H.
  now rewrite for_each_spawn_outcome.
Qed.

Lemma formatForStepSearch_thrown (specsDir : string) (w w1 : world) (e : exn) :
  findSpecFiles specsDir w = (Thrown e, w1) ->
  formatForStepSearch specsDir w = (Thrown e, w1).
Proof. intros H. unfold formatForStepSearch, bind. now rewrite H. Qed.

Lemma drain_step (c : command) (rest : list command) (w : world) :
  w_pending w = c :: rest ->
  w_pending (settle w) = rest
  /\ w_fs (settle w) = snd (run c (w_fs w))
  /\ drain w = drain (settle w).
Proof.
  intros H. unfold drain. rewrite H. simpl.
  assert (Hp : w_pending (settle w) = rest).
  { unfold settle. rewrite H. now destruct (run c (w_fs w)). }
  rewrite Hp. repeat split.
  unfold settle. rewrite H. now destruct (run c (w_fs w)).
Qed.

Lemma drain_keeps (Q : fsys -> Prop) (w : world) :
  (forall c fs, Q fs -> Q (snd (run c fs))) ->
  Q (w_fs w) -> Q (w_fs (drain w)).
Proof. intros HQ H. unfold drain. now apply settle_n_keeps. Qed.

(** A file without final newline stays as it is or gets its newline,
    whatever command runs. *)
Lemma run_keeps_unterminated_or_done (c : command) (fs : fsys)
      (p data : string) :
  ends_with_newline data = false ->
  read fs p = Some (Readable data)
  \/ read fs p = Some (Readable (data ++ newline)) ->
  read (snd (run c fs)) p = Some (Readable data)
  \/ read (snd (run c fs)) p = Some (Readable (data ++ newline)).
Proof.
  intros Hend [H|H].
  - destruct c as [d|d|d|target|d|d pat]; simpl; auto.
    destruct (String.eqb_spec target p) as [->|Hne].
    + right. now apply append_newline_unterminated.
    + left. unfold append_newline.
      destruct (wc_l (tail_c1 fs target) =? 0)%nat; simpl; [|exact H].
      now rewrite echo_append_other.
  - right. apply run_keeps_terminated; [exact H|].
    apply ends_with_newline_app.
Qed.

Lemma run_append_on_unterminated_or_done (fs : fsys) (p data : string) :
  ends_with_newline data = false ->
  read fs p = Some (Readable data)
  \/ read fs p = Some (Readable (data ++ newline)) ->
  read (snd (run (CmdAppendNewline p) fs)) p
  = Some (Readable (data ++ newline)).
Proof.
  intros Hend [H|H]; simpl.
  - now apply append_newline_unterminated.
  - now rewrite (append_newline_terminated fs p H (ends_with_newline_app data)).
Qed.

(** Once every pending command has run, a file without final newline for
    which an append is pending has got exactly one. *)
Lemma drain_appends (p data : string) (w : world) :
  ends_with_newline data = false ->
  In (CmdAppendNewline p) (w_pending w) ->
  read (w_fs w) p = Some (Readable data)
  \/ read (w_fs w) p = Some (Readable (data ++ newline)) ->
  read (w_fs (drain w)) p = Some (Readable (data ++ newline)).
Proof.
  intros Hend. remember (w_pending w) as l eqn:Hl. revert w Hl.
  induction l as [|c rest IH]; intros w Hl Hin Hq; [contradiction|].
  destruct (drain_step w (eq_sym Hl)) as (Hp & Hfs & Hd).
  rewrite Hd. destruct Hin as [->|Hin].
  - apply (drain_keeps
             (fun fs => read fs p = Some (Readable (data ++ newline)))).
    + intros c fs H. apply run_keeps_terminated; [exact H|].
      apply ends_with_newline_app.
    + rewrite Hfs. now apply run_append_on_unterminated_or_done.
  - apply IH; [now rewrite Hp|exact Hin|].
    rewrite Hfs. now apply run_keeps_unterminated_or_done.
Qed.

End Format.






(* ================================================================== *)
(** ** The listing of the specs directory *)

Section Listing.

Lemma append_assoc (a b c : string) : (a ++ b) ++ c = a ++ (b ++ c).
Proof. induction a as [|x a IH]; simpl; [reflexivity|now rewrite IH]. Qed.

Lemma rev_append_app (a s : string) : rev_append a s = rev_append a "" ++ s.
Proof.
  revert s. induction a as [|c a IH]; intros s; simpl; [reflexivity|].
  rewrite IH, (IH (String c "")). now rewrite append_assoc.
Qed.

Lemma rev_cons (c : ascii) (a : string) : rev (String c a) = rev a ++ String c "".
Proof. unfold rev. simpl. apply rev_append_app. Qed.

Lemma append_empty_r (a : string) : a ++ "" = a.
Proof. induction a as [|c a IH]; simpl; [reflexivity|now rewrite IH]. Qed.

Lemma rev_app (a b : string) : rev (a ++ b) = rev b ++ rev a.
Proof.
  induction a as [|c a IH]; simpl.
  - now rewrite append_empty_r.
  - rewrite !rev_cons, IH. now rewrite append_assoc.
Qed.

Lemma rev_involutive (a : string) : rev (rev a) = a.
Proof.
  induction a as [|c a IH]; [reflexivity|].
  rewrite rev_cons, rev_app, IH. reflexivity.
Qed.

Lemma starts_plain_app (a b : string) :
  starts_plain a = true -> starts_plain (a ++ b) = true.
Proof. destruct a; [discriminate|auto]. Qed.

Lemma drop_while_starts_plain (s : string) :
  starts_plain s = true -> drop_while is_space s = s.
Proof.
  destruct s as [|c s]; [discriminate|]. simpl. intros H.
  apply negb_true_iff in H. now rewrite H.
Qed.

Lemma listed_path_facts (a : string) :
  listed_path a = true ->
  starts_plain a = true /\ starts_plain (rev a) = true
  /\ mem_char LF a = false.
Proof.
  unfold listed_path. intros H.
  apply andb_true_iff in H as [H Hlf]. apply andb_true_iff in H as [Hs He].
  apply negb_true_iff in Hlf. auto.
Qed.

(** [trim] takes the newline after a text that starts and ends with a
    character that is not white space, and nothing else. *)
Lemma trim_line (s : string) :
  starts_plain s = true -> starts_plain (rev s) = true ->
  trim (s ++ newline) = s.
Proof.
  intros Hs Hr. unfold trim.
  rewrite (drop_while_starts_plain _ (starts_plain_app s newline Hs)).
  rewrite rev_app. simpl.
  rewrite (drop_while_starts_plain _ Hr). apply rev_involutive.
Qed.

Lemma split_one_line (a : string) :
  mem_char LF a = false -> split LF a = [a].
Proof.
  induction a as [|c a IH]; simpl; [reflexivity|].
  intros H. apply orb_false_iff in H as [Hc H].
  rewrite Hc. now rewrite (IH H).
Qed.

Lemma split_first_line (a rest : string) :
  mem_char LF a = false ->
  split LF (a ++ String LF rest) = a :: split LF rest.
Proof.
  induction a as [|c a IH]; simpl; [reflexivity|].
  intros H. apply orb_false_iff in H as [Hc H].
  rewrite Hc. rewrite (IH H). reflexivity.
Qed.

Lemma unlines_cons (a : string) (ps : list string) :
  unlines (a :: ps) = a ++ newline ++ unlines ps.
Proof.
  unfold unlines. cbn [map].
  destruct (map (fun l => l ++ newline) ps) eqn:E; cbn [String.concat].
  - reflexivity.
  - change ("" ++ String.concat "" (s :: l)) with (String.concat "" (s :: l)).
    now rewrite append_assoc.
Qed.

(** A listing is its paths joined by newlines, and one more newline. *)
Lemma unlines_joined (a : string) (ps : list string) :
  unlines (a :: ps) = String.concat newline (a :: ps) ++ newline.
Proof.
  revert a. induction ps as [|b ps IH]; intros a.
  - rewrite unlines_cons. reflexivity.
  - rewrite unlines_cons, IH.
    change (String.concat newline (a :: b :: ps))
      with (a ++ newline ++ String.concat newline (b :: ps)).
    now rewrite !append_assoc.
Qed.

Lemma joined_starts_plain (a : string) (ps : list string) :
  starts_plain a = true ->
  starts_plain (String.concat newline (a :: ps)) = true.
Proof.
  intros H. destruct ps; [exact H|]. now apply starts_plain_app.
Qed.

Lemma joined_ends_plain (a : string) (ps : list string) :
  forallb listed_path (a :: ps) = true ->
  starts_plain (rev (String.concat newline (a :: ps))) = true.
Proof.
  revert a. induction ps as [|b ps IH]; intros a H.
  - simpl in H. rewrite andb_true_r in H.
    now apply listed_path_facts in H as (_ & H & _).
  - cbn [forallb] in H. apply andb_true_iff in H as [_ H].
    change (String.concat newline (a :: b :: ps))
      with (a ++ newline ++ String.concat newline (b :: ps)).
    rewrite !rev_app. rewrite append_assoc.
    apply starts_plain_app. now apply IH.
Qed.

Lemma split_joined (a : string) (ps : list string) :
  forallb listed_path (a :: ps) = true ->
  split LF (String.concat newline (a :: ps)) = a :: ps.
Proof.
  revert a. induction ps as [|b ps IH]; intros a H.
  - simpl in H. rewrite andb_true_r in H.
    apply listed_path_facts in H as (_ & _ & H). now apply split_one_line.
  - cbn [forallb] in H. apply andb_true_iff in H as [Ha H].
    apply listed_path_facts in Ha as (_ & _ & Ha).
    change (String.concat newline (a :: b :: ps))
      with (a ++ String LF (String.concat newline (b :: ps))).
    now rewrite (split_first_line _ _ Ha), IH.
Qed.

(** The way the script reads a listing gives back the paths that were
    listed, when none holds a line feed and none starts or ends with white
    space. *)
Lemma split_trim_listing (ps : list string) :
  ps <> [] -> forallb listed_path ps = true ->
  split LF (trim (unlines ps)) = ps.
Proof.
  destruct ps as [|a ps]; [congruence|]. intros _ H.
  rewrite unlines_joined, trim_line.
  - now apply split_joined.
  - cbn [forallb] in H. apply andb_true_iff in H as [Ha _].
    apply listed_path_facts in Ha as (Ha & _). now apply joined_starts_plain.
  - now apply joined_ends_plain.
Qed.

Lemma normalized_idempotent (data : string) :
  normalized (normalized data) = normalized data.
Proof.
  unfold normalized. destruct (ends_with_newline data) eqn:E.
  - now rewrite E.
  - now rewrite ends_with_newline_app.
Qed.

Lemma listed_below (fs : fsys) (dir p : string) (f : file) :
  read fs p = Some f -> under dir p = true -> In p (files_below fs dir).
Proof.
  unfold read, files_below. intros Hread Hunder.
  induction (files fs) as [|[q g] l IH]; simpl in *; [discriminate|].
  destruct (String.eqb_spec q p) as [->|Hne].
  - rewrite Hunder. now left.
  - destruct (under dir q); simpl; auto.
Qed.

(** In a run that starts, on a specs directory whose paths hold no line
    feed and neither start nor end with white space, [findSpecFiles] returns
    the files below the directory. *)
Lemma findSpecFiles_of_plain_tree (specsDir : string) (w : world) :
  w_pending w = [] ->
  is_dir (w_fs w) specsDir = true ->
  files_below (w_fs w) specsDir <> [] ->
  forallb listed_path (files_below (w_fs w) specsDir) = true ->
  exists w1,
    findSpecFiles specsDir w = (Returned (files_below (w_fs w) specsDir), w1)
    /\ w_fs w1 = w_fs w /\ w_pending w1 = [].
Proof.
  intros Hquiet Hdir Hsome Hplain. unfold findSpecFiles, bind.
  destruct (sh_outcome (CmdFindSpecFiles specsDir) w)
    as (w1 & Hsh & _ & Hpend & Hfs).
  destruct (awaited_quiet (CmdFindSpecFiles specsDir) w Hquiet) as [Efs Ep].
  rewrite Hsh. simpl. rewrite Efs.
  unfold find_spec_files, find_type_f. rewrite Hdir. simpl.
  exists w1. unfold ret. fold (files_below (w_fs w) specsDir).
  rewrite (split_trim_listing Hsome Hplain).
  split; [reflexivity|]. split.
  - rewrite Hfs. simpl. exact Efs.
  - now rewrite Hpend.
Qed.

(** The whole normalization on such a directory, in the model of this
    file: when [formatForStepSearch] returns its appends are pending, and
    once they have run every file that can be read and written has its final
    newline, once, and every file that can be read and not written is as it
    was. *)
Lemma formatForStepSearch_normalizes_plain_tree
      (specsDir p data : string) (f : file) (w : world) :
  w_pending w = [] ->
  is_dir (w_fs w) specsDir = true ->
  forallb listed_path (files_below (w_fs w) specsDir) = true ->
  under specsDir p = true ->
  read (w_fs w) p = Some f ->
  contents f = Some data ->
  exists w2,
    formatForStepSearch specsDir w = (Returned tt, w2)
    /\ w_fs w2 = w_fs w
    /\ w_pending w2 = map CmdAppendNewline (files_below (w_fs w) specsDir)
    /\ read (w_fs (drain w2)) p
       = Some (if writable f then Readable (normalized data) else f).
Proof.
  intros Hquiet Hdir Hplain Hunder Hread Hdata.
  pose proof (listed_below (w_fs w) specsDir p Hread Hunder) as Hin.
  assert (Hsome : files_below (w_fs w) specsDir <> []).
  { intros E. rewrite E in Hin. exact Hin. }
  destruct (findSpecFiles_of_plain_tree specsDir w Hquiet Hdir Hsome Hplain)
    as (w1 & Hlist & Hfs & Hpend).
  eexists. split; [apply (formatForStepSearch_outcome specsDir w Hlist)|].
  simpl. rewrite Hpend, Hfs. repeat split.
  destruct (writable f) eqn:Hw.
  - assert (Hf : f = Readable data).
    { destruct f; try discriminate Hw; try discriminate Hdata.
      now injection Hdata as ->. }
    subst f.
    unfold normalized. destruct (ends_with_newline data) eqn:Hend.
    + apply (drain_keeps (fun fs => read fs p = Some (Readable data))).
      * intros c fs H. now apply run_keeps_terminated.
      * exact Hread.
    + apply (drain_appends p (data := data)); simpl.
      * exact Hend.
      * now apply in_map.
      * now left.
  - apply (drain_keeps (fun fs => read fs p = Some f)).
    + intros c fs H. now apply run_keeps_unwritable.
    + exact Hread.
Qed.

End Listing.

(* ================================================================== *)
(** ** The order of the appends and the usage checks *)

(** C2: the run on a project whose first specification file lacks its final
    newline, in the schedule in which no append finishes while the script
    waits for its own commands.  The three appends are started and none has
    finished when the usage check of [Login as admin] is started: the check
    reads [* Login as admin# Billing] for the last line of the first file
    and the first of the second, and the step is reported unused.  In the
    schedule in which the appends finish while the script waits for
    [findSteps], the same project is all clean. *)
Theorem C2_usage_check_overtakes_pending_appends :
  w_trace (snd (exec (fun dir => dir) "p" (fresh unterminated_project [])))
  = [Started (CmdFindSpecFiles "p/specs");
     Finished (CmdFindSpecFiles "p/specs") 0;
     Started (CmdAppendNewline "p/specs/a.spec");
     Started (CmdAppendNewline "p/specs/b.spec");
     Started (CmdAppendNewline "p/specs/empty.spec");
     Started (CmdFindSteps "p/src/test/kotlin");
     Finished (CmdFindSteps "p/src/test/kotlin") 0;
     Started (CmdGrepUsage "p/specs" "^\*\s+Login as admin\s*$");
     Finished (CmdGrepUsage "p/specs" "^\*\s+Login as admin\s*$") 1;
     Started (CmdFindConceptFiles "p/specs");
     Finished (CmdFindConceptFiles "p/specs") 0]
  /\ appends_before_checks
       0 (w_trace (snd (exec (fun dir => dir) "p"
                             (fresh unterminated_project [])))) = false
  /\ w_pending (snd (exec (fun dir => dir) "p" (fresh unterminated_project [])))
     = [CmdAppendNewline "p/specs/a.spec"; CmdAppendNewline "p/specs/b.spec";
        CmdAppendNewline "p/specs/empty.spec"]
  /\ In "* Login as admin"
        (w_console (snd (exec (fun dir => dir) "p"
                              (fresh unterminated_project []))))
  /\ appends_before_checks
       0 (w_trace (snd (exec (fun dir => dir) "p"
                             (fresh unterminated_project [0; 3])))) = true
  /\ In "ALL CLEAN!"
        (w_console (snd (exec (fun dir => dir) "p"
                              (fresh unterminated_project [0; 3])))).
Proof. vm_compute. repeat split; auto 20. Qed.

(* ================================================================== *)
(** ** Further properties of the pattern builder *)

Section PatternBuilderMore.

Lemma replace_without_open (s : string) :
  mem_char "<" s = false -> replace_placeholders false s = s.
Proof.
  induction s as [|c s IH]; simpl; [reflexivity|].
  intros H. apply orb_false_iff in H as [Hc H].
  rewrite Hc. simpl. now rewrite IH.
Qed.

Lemma has_close_none (x : ascii) (s : string) :
  mem_char x s = false -> has_close x s = false.
Proof.
  induction s as [|c s IH]; simpl; [reflexivity|].
  intros H. apply orb_false_iff in H as [Hc H]. rewrite Hc.
  destruct (is_line_terminator c); auto.
Qed.

Lemma count_spans_none (s : string) :
  mem_char "<" s = false -> count_spans false s = 0.
Proof.
  induction s as [|c s IH]; simpl; [reflexivity|].
  intros H. apply orb_false_iff in H as [Hc H]. rewrite Hc. simpl. auto.
Qed.

(** A [<] that has no [>] on its line has none after the replacement
    either. *)
Lemma has_close_after_replace (s suffix : string) :
  mem_char ">" suffix = false ->
  has_close ">" s = false ->
  has_close ">" (replace_placeholders false s ++ suffix) = false.
Proof.
  intros Hsuf. induction s as [|c s IH]; intros H.
  - simpl. now apply has_close_none.
  - simpl in H. destruct (Ascii.eqb c ">") eqn:Hgt; [discriminate|].
    simpl. destruct (Ascii.eqb c "<") eqn:Hlt.
    + apply Ascii.eqb_eq in Hlt. subst c. simpl in H.
      rewrite H. simpl. now apply IH.
    + simpl. rewrite Hgt. destruct (is_line_terminator c); auto.
Qed.

Lemma count_spans_after_replace (s suffix : string) :
  mem_char "<" suffix = false -> mem_char ">" suffix = false ->
  count_spans false (replace_placeholders false s ++ suffix) = 0
  /\ count_spans false (replace_placeholders true s ++ suffix) = 0.
Proof.
  intros Hlt Hgt. induction s as [|c s [IH1 IH2]].
  - simpl. split; now apply count_spans_none.
  - split.
    + simpl. destruct (Ascii.eqb c "<" && has_close ">" s) eqn:E.
      * exact IH2.
      * change (String c (replace_placeholders false s) ++ suffix)
          with (String c (replace_placeholders false s ++ suffix)).
        cbn [count_spans].
        destruct (Ascii.eqb c "<") eqn:Hc; simpl in E |- *; [|exact IH1].
        now rewrite (has_close_after_replace s suffix Hgt E).
    + simpl. destruct (Ascii.eqb c ">"); assumption.
Qed.

End PatternBuilderMore.

(** A name without [<] goes into the pattern letter for letter, between the
    prefix and the suffix: nothing in it is escaped, whatever it means in a
    regular expression. *)
Theorem createStepNamePattern_copies_plain_name (name : string) :
  mem_char "<" name = false ->
  createStepNamePattern name = "^\*\s+" ++ name ++ "\s*$".
Proof.
  intros H. unfold createStepNamePattern. now rewrite replace_without_open.
Qed.

Lemma createStepNamePattern_copies_metacharacters :
  mem_char "<" "Pay (cash|card) 5.00$" = false
  /\ createStepNamePattern "Pay (cash|card) 5.00$"
     = "^\*\s+Pay (cash|card) 5.00$\s*$".
Proof.
  split; [reflexivity|].
  now apply createStepNamePattern_copies_plain_name.
Defined.

(** Whatever the name, the pattern holds no placeholder span any more: the
    expression that the builder replaces finds nothing in what the builder
    returns. *)
Theorem createStepNamePattern_leaves_no_span (name : string) :
  count_spans false (createStepNamePattern name) = 0.
Proof.
  unfold createStepNamePattern.
  change ("^\*\s+" ++ replace_placeholders false name ++ "\s*$")
    with (String "^" (String "\" (String "*" (String "\" (String "s"
           (String "+" (replace_placeholders false name ++ "\s*$"))))))).
  cbn [count_spans]. cbn [Ascii.eqb Bool.eqb andb].
  now apply count_spans_after_replace.
Qed.

(* ================================================================== *)
(** ** Properties of the reading of step names *)

Section StepNames.

Lemma mem_remove_char (x : ascii) (s : string) :
  mem_char x (remove_char x s) = false.
Proof.
  induction s as [|c s IH]; simpl; [reflexivity|].
  destruct (Ascii.eqb c x) eqn:E; [exact IH|]. simpl. now rewrite E.
Qed.

Lemma remove_char_none (x : ascii) (s : string) :
  mem_char x s = false -> remove_char x s = s.
Proof.
  induction s as [|c s IH]; simpl; [reflexivity|].
  intros H. apply orb_false_iff in H as [Hc H]. rewrite Hc. now rewrite IH.
Qed.

Lemma count_char_none (x : ascii) (s : string) :
  count_char x s = 0 -> mem_char x s = false.
Proof.
  induction s as [|c s IH]; simpl; [reflexivity|].
  destruct (Ascii.eqb c x); [discriminate|]. simpl. exact IH.
Qed.

Lemma has_close_name (x : ascii) (name rest : string) :
  mem_char LF name = false -> mem_char CR name = false ->
  has_close x (name ++ String x rest) = true.
Proof.
  induction name as [|c name IH]; simpl; intros Hlf Hcr.
  - now rewrite Ascii.eqb_refl.
  - apply orb_false_iff in Hlf as [Hc1 Hlf].
    apply orb_false_iff in Hcr as [Hc2 Hcr].
    destruct (Ascii.eqb c x); [reflexivity|].
    unfold is_line_terminator. rewrite Hc1, Hc2. simpl. auto.
Qed.

Lemma quoted_skip (before s : string) :
  mem_char DQUOTE before = false ->
  quoted None (before ++ s) = quoted None s.
Proof.
  induction before as [|c before IH]; simpl; [reflexivity|].
  intros H. apply orb_false_iff in H as [Hc H]. rewrite Hc. simpl. auto.
Qed.

Lemma quoted_inside (name acc rest : string) :
  mem_char DQUOTE name = false ->
  quoted (Some acc) (name ++ String DQUOTE rest)
  = rev (String DQUOTE (rev_append name acc)) :: quoted None rest.
Proof.
  revert acc. induction name as [|c name IH]; intros acc H.
  - simpl. reflexivity.
  - simpl in H. apply orb_false_iff in H as [Hc H].
    cbn [append quoted]. rewrite Hc. apply IH, H.
Qed.

Lemma rev_quoted (name : string) :
  rev (String DQUOTE (rev_append name (String DQUOTE ""))) = quoted_text name.
Proof.
  rewrite rev_cons, rev_append_app. fold (rev name).
  rewrite rev_app, rev_involutive. reflexivity.
Qed.

Lemma quoted_annotation_line (items : list (string * string)) (tail : string) :
  forallb annotation_item_ok items = true ->
  mem_char DQUOTE tail = false ->
  quoted None (annotation_line items tail)
  = map (fun item => quoted_text (snd item)) items.
Proof.
  intros Hitems Htail. induction items as [|[before name] items IH].
  - simpl. rewrite <- (append_empty_r tail).
    now rewrite (quoted_skip tail "" Htail).
  - cbn [forallb] in Hitems. apply andb_true_iff in Hitems as [Hitem Hitems].
    unfold annotation_item_ok in Hitem. simpl in Hitem.
    apply andb_true_iff in Hitem as [Hitem Hcr].
    apply andb_true_iff in Hitem as [Hitem Hlf].
    apply andb_true_iff in Hitem as [Hb Hn].
    apply negb_true_iff in Hb, Hn, Hlf, Hcr.
    cbn [annotation_line map snd]. rewrite (quoted_skip _ _ Hb).
    unfold quoted_text at 1.
    change (String DQUOTE (name ++ String DQUOTE "") ++ annotation_line items tail)
      with (String DQUOTE ((name ++ String DQUOTE "") ++ annotation_line items tail)).
    rewrite append_assoc.
    change (String DQUOTE "" ++ annotation_line items tail)
      with (String DQUOTE (annotation_line items tail)).
    cbn [quoted]. rewrite Ascii.eqb_refl.
    rewrite (has_close_name DQUOTE name _ Hlf Hcr). cbn [andb].
    rewrite (quoted_inside name _ _ Hn), rev_quoted. now rewrite (IH Hitems).
Qed.

Lemma unquoted_names (items : list (string * string)) :
  forallb annotation_item_ok items = true ->
  map (remove_char DQUOTE) (map (fun item => quoted_text (snd item)) items)
  = map snd items.
Proof.
  intros Hitems. rewrite map_map. apply map_ext_in. intros [before name] Hin.
  assert (Hok : annotation_item_ok (before, name) = true).
  { rewrite forallb_forall in Hitems. now apply Hitems. }
  unfold annotation_item_ok in Hok. simpl in Hok.
  apply andb_true_iff in Hok as [Hok _].
  apply andb_true_iff in Hok as [Hok _].
  apply andb_true_iff in Hok as [_ Hn]. apply negb_true_iff in Hn.
  unfold quoted_text. cbn [snd remove_char]. rewrite Ascii.eqb_refl.
  clear -Hn. induction name as [|c name IH]; cbn [append remove_char mem_char] in *.
  - now rewrite Ascii.eqb_refl.
  - apply orb_false_iff in Hn as [Hc Hn]. rewrite Hc. now rewrite IH.
Qed.

Lemma quoted_needs_two_quotes (line : string) :
  count_char DQUOTE line <= 1 -> quoted None line = [].
Proof.
  induction line as [|c line IH]; simpl; [reflexivity|].
  destruct (Ascii.eqb c DQUOTE) eqn:E; simpl; intros H.
  - assert (H0 : count_char DQUOTE line = 0) by lia.
    rewrite (has_close_none DQUOTE line (count_char_none _ _ H0)).
    apply IH. lia.
  - apply IH, H.
Qed.

(** The groups that [convertToStepNames] returns. *)
Lemma convertToStepNames_returned (line : string) (group : list definition) :
  convertToStepNames line = Returned group ->
  group <> []
  /\ Forall (fun d => pattern d = createStepNamePattern (stepName d)
                      /\ mem_char DQUOTE (stepName d) = false) group.
Proof.
  assert (G : forall pieces,
             Forall (fun d => pattern d = createStepNamePattern (stepName d)
                              /\ mem_char DQUOTE (stepName d) = false)
                    (createDefinitions (map (remove_char DQUOTE) pieces))).
  { intros pieces. unfold createDefinitions. apply Forall_forall. intros d Hd.
    apply in_map_iff in Hd as (name & <- & Hname).
    apply in_map_iff in Hname as (piece & <- & _).
    split; [reflexivity|]. simpl. apply mem_remove_char. }
  unfold convertToStepNames.
  destruct (quoted None line) as [|q qs]; [discriminate|].
  intros [= <-]. split; [discriminate|]. apply (G (q :: qs)).
Qed.

Lemma traverse_lift_returned {A B} (f : A -> outcome B) (xs : list A)
      (ys : list B) (w w' : world) :
  traverse (fun x => lift (f x)) xs w = (Returned ys, w') ->
  Forall2 (fun x y => f x = Returned y) xs ys /\ w' = w.
Proof.
  revert ys. induction xs as [|x xs IH]; intros ys; simpl.
  - unfold ret. intros [= <- <-]. split; constructor.
  - unfold bind, lift at 1. destruct (f x) as [y|e] eqn:E; [|discriminate].
    destruct (traverse (fun x => lift (f x)) xs w) as [[zs|e] w1] eqn:T;
      [|discriminate].
    unfold ret. intros [= <- <-]. destruct (IH zs eq_refl) as [IH1 IH2].
    split; [now constructor|exact IH2].
Qed.

End StepNames.

(** A logical line with quoted names, each free of quotes and of line
    terminators, gives one group with one declaration per name, in the order
    of the line, whatever stands between the names. *)
Theorem convertToStepNames_reads_every_name
        (items : list (string * string)) (tail : string) :
  items <> [] ->
  forallb annotation_item_ok items = true ->
  mem_char DQUOTE tail = false ->
  convertToStepNames (annotation_line items tail)
  = Returned (createDefinitions (map snd items)).
Proof.
  intros Hsome Hitems Htail. unfold convertToStepNames.
  rewrite (quoted_annotation_line items tail Hitems Htail).
  destruct (map (fun item => quoted_text (snd item)) items) as [|q qs] eqn:E.
  - destruct items; [congruence|discriminate].
  - rewrite <- E. now rewrite (unquoted_names items Hitems).
Qed.

Lemma convertToStepNames_reads_two_aliases :
  annotation_line [("@Step(", "Login as admin"); (", ", "Sign in as <user>")]
                  ")"
  = "@Step(" ++ quoted_text "Login as admin" ++ ", "
    ++ quoted_text "Sign in as <user>" ++ ")"
  /\ convertToStepNames
       (annotation_line
          [("@Step(", "Login as admin"); (", ", "Sign in as <user>")] ")")
     = Returned
         [mkDefinition "Login as admin" "^\*\s+Login as admin\s*$";
          mkDefinition "Sign in as <user>" "^\*\s+Sign in as .+\s*$"].
Proof.
  split; [reflexivity|].
  apply (@convertToStepNames_reads_every_name
           [("@Step(", "Login as admin"); (", ", "Sign in as <user>")] ")");
    [discriminate | reflexivity | reflexivity].
Defined.

(** A line with fewer than two quotes has no quoted piece: [match] gives
    [null] and the call of [map] on it raises a [TypeError]. *)
Theorem convertToStepNames_raises_without_quoted_name (line : string) :
  count_char DQUOTE line <= 1 ->
  convertToStepNames line
  = Thrown (TypeError "Cannot read properties of null (reading 'map')").
Proof.
  intros H. unfold convertToStepNames. now rewrite quoted_needs_two_quotes.
Qed.

Lemma convertToStepNames_raises_on_bare_annotation :
  count_char DQUOTE "@Step(name)" <= 1
  /\ convertToStepNames "@Step(name)"
     = Thrown (TypeError "Cannot read properties of null (reading 'map')").
Proof.
  split; [simpl; lia|].
  apply convertToStepNames_raises_without_quoted_name. simpl. lia.
Defined.

(** Whenever [findSteps] returns, no group is empty, no step name holds a
    quote, and the pattern of every declaration is the one the pattern
    builder makes of its name. *)
Theorem findSteps_groups_are_well_formed
        (srcDir : string) (w w' : world) (steps : list (list definition)) :
  findSteps srcDir w = (Returned steps, w') ->
  Forall (fun group =>
            group <> []
            /\ Forall (fun d => pattern d = createStepNamePattern (stepName d)
                                /\ mem_char DQUOTE (stepName d) = false)
                      group)
         steps.
Proof.
  unfold findSteps, bind.
  destruct (sh (CmdFindSteps srcDir) w) as [[out|e] w1]; [|discriminate].
  intros H. apply traverse_lift_returned in H as [H _].
  induction H as [|line group ls gs Hline _ IH]; constructor; [|exact IH].
  eapply convertToStepNames_returned, Hline.
Qed.

Lemma findSteps_groups_of_clean_project :
  exists w',
    findSteps "p/src/test/kotlin" (fresh clean_project [])
    = (Returned [[login]], w')
    /\ Forall (fun group =>
                 group <> []
                 /\ Forall (fun d =>
                              pattern d = createStepNamePattern (stepName d)
                              /\ mem_char DQUOTE (stepName d) = false)
                           group)
              [[login]].
Proof.
  exists (snd (findSteps "p/src/test/kotlin" (fresh clean_project []))).
  assert (H : findSteps "p/src/test/kotlin" (fresh clean_project [])
              = (Returned [[login]],
                 snd (findSteps "p/src/test/kotlin" (fresh clean_project []))))
    by (vm_compute; reflexivity).
  split; [exact H|].
  exact (@findSteps_groups_are_well_formed _ _ _ _ H).
Defined.

(* ================================================================== *)
(** ** Further properties of the usage check *)

Section UsageCheckMore.

Variable specsDir : string.

Lemma isUnused_quiet (d : definition) (w : world) :
  w_pending w = [] ->
  exists w',
    isUnused d specsDir w
    = (Returned
         (negb (exitCode (grep_usage_pipeline (w_fs w) specsDir (pattern d))
                =? 0)%nat), w')
    /\ unchanged w w'.
Proof.
  intros Hquiet. unfold isUnused, try_catch, bind.
  destruct (sh_outcome (CmdGrepUsage specsDir (pattern d)) w)
    as (w' & Hsh & Hcon & Hpend & Hfs).
  destruct (awaited_quiet (CmdGrepUsage specsDir (pattern d)) w Hquiet)
    as [Efs Ep].
  rewrite Hsh. simpl. rewrite Efs.
  assert (Hun : unchanged w w').
  { repeat split; [rewrite Hfs; simpl; exact Efs|now rewrite Hpend|exact Hcon]. }
  destruct (exitCode (grep_usage_pipeline (w_fs w) specsDir (pattern d)) =? 0)%nat;
    exists w'; split; auto.
Qed.

Lemma grep_status (pat text : string) :
  snd (grep pat text)
  = match Ere.parse_arg pat with
    | Some r => if existsb (Ere.search r) (lines text) then 0 else 1
    | None => 2
    end.
Proof.
  unfold grep. destruct (Ere.parse_arg pat) as [r|]; [|reflexivity]. simpl.
  induction (lines text) as [|l ls IH]; simpl; [reflexivity|].
  destruct (Ere.search r l); simpl; [reflexivity|exact IH].
Qed.

Lemma usage_status (fs : fsys) (pat : string) :
  snd (find_exec_cat fs specsDir) = 0 ->
  exitCode (grep_usage_pipeline fs specsDir pat)
  = snd (grep pat (fst (find_exec_cat fs specsDir))).
Proof.
  unfold grep_usage_pipeline.
  destruct (find_exec_cat fs specsDir) as [text c1]. simpl. intros ->.
  destruct (grep pat text) as [sel c2]. simpl.
  unfold pipefail. simpl. destruct c2; reflexivity.
Qed.

Lemma isUnused_marks (d : definition) (w : world) :
  w_pending w = [] ->
  snd (find_exec_cat (w_fs w) specsDir) = 0 ->
  readable_pattern (pattern d) = true ->
  exists w',
    checkUsage specsDir d w
    = (Returned (marked_by (fst (find_exec_cat (w_fs w) specsDir)) d), w')
    /\ unchanged w w'.
Proof.
  intros Hquiet Hread Hpat.
  destruct (isUnused_quiet d w Hquiet) as (w' & H & Hun).
  exists w'. split; [|exact Hun].
  unfold checkUsage, bind. rewrite H. unfold ret, marked_by, matching_line.
  rewrite (usage_status _ _ Hread), grep_status.
  unfold readable_pattern in Hpat.
  destruct (Ere.parse_arg (pattern d)) as [r|]; [|discriminate].
  now destruct (existsb (Ere.search r)
                        (lines (fst (find_exec_cat (w_fs w) specsDir)))).
Qed.

Lemma isUnused_by_text (d : definition) (w : world) :
  w_pending w = [] ->
  snd (find_exec_cat (w_fs w) specsDir) = 0 ->
  readable_pattern (pattern d) = true ->
  exists w',
    isUnused d specsDir w
    = (Returned
         (negb (matching_line (fst (find_exec_cat (w_fs w) specsDir))
                              (pattern d))), w')
    /\ w_fs w' = w_fs w /\ w_console w' = w_console w.
Proof.
  intros Hquiet Hread Hpat.
  destruct (isUnused_quiet d w Hquiet) as (w' & H & Hfs & _ & Hcon).
  exists w'. split; [|split; assumption].
  rewrite H. unfold matching_line.
  rewrite (usage_status _ _ Hread), grep_status.
  unfold readable_pattern in Hpat.
  destruct (Ere.parse_arg (pattern d)) as [r|]; [|discriminate].
  now destruct (existsb (Ere.search r)
                        (lines (fst (find_exec_cat (w_fs w) specsDir)))).
Qed.

Lemma unchanged_trans (w w1 w2 : world) :
  unchanged w w1 -> unchanged w1 w2 -> unchanged w w2.
Proof.
  intros (A & B & C) (D & E & F). repeat split; congruence.
Qed.

Lemma check_all_marks (step : list definition) (w : world) :
  w_pending w = [] ->
  snd (find_exec_cat (w_fs w) specsDir) = 0 ->
  forallb (fun d => readable_pattern (pattern d)) step = true ->
  exists w',
    traverse (checkUsage specsDir) step w
    = (Returned (map (marked_by (fst (find_exec_cat (w_fs w) specsDir))) step),
       w')
    /\ unchanged w w'.
Proof.
  revert w. induction step as [|d step IH]; intros w Hquiet Hread Hpat.
  - exists w. split; [reflexivity|]. repeat split; auto.
  - cbn [forallb] in Hpat. apply andb_true_iff in Hpat as [Hd Hpat].
    destruct (isUnused_marks d w Hquiet Hread Hd) as (w1 & H1 & U1).
    destruct U1 as (F1 & P1 & C1).
    destruct (IH w1 P1) as (w2 & H2 & U2);
      [now rewrite F1|exact Hpat|].
    exists w2. split.
    + cbn [traverse map]. unfold bind. rewrite H1, H2. rewrite F1. reflexivity.
    + apply (unchanged_trans (w1 := w1)); [repeat split; auto|exact U2].
Qed.

Lemma check_groups_marks (steps : list (list definition)) (w : world) :
  w_pending w = [] ->
  snd (find_exec_cat (w_fs w) specsDir) = 0 ->
  forallb (forallb (fun d => readable_pattern (pattern d))) steps = true ->
  exists w',
    traverse (fun step => traverse (checkUsage specsDir) step) steps w
    = (Returned
         (map (map (marked_by (fst (find_exec_cat (w_fs w) specsDir)))) steps),
       w')
    /\ unchanged w w'.
Proof.
  revert w. induction steps as [|step steps IH]; intros w Hquiet Hread Hpat.
  - exists w. split; [reflexivity|]. repeat split; auto.
  - cbn [forallb] in Hpat. apply andb_true_iff in Hpat as [Hs Hpat].
    destruct (check_all_marks step w Hquiet Hread Hs) as (w1 & H1 & U1).
    destruct U1 as (F1 & P1 & C1).
    destruct (IH w1 P1) as (w2 & H2 & U2);
      [now rewrite F1|exact Hpat|].
    exists w2. split.
    + cbn [traverse map]. unfold bind. rewrite H1, H2. rewrite F1. reflexivity.
    + apply (unchanged_trans (w1 := w1)); [repeat split; auto|exact U2].
Qed.

End UsageCheckMore.





(* ================================================================== *)
(** ** The report of the step groups *)

Section GroupReport.

Variable specsDir : string.

(** The checks of a group are the calls of [isUnused] on its declarations,
    one after the other, each answer kept with its declaration. *)
Lemma check_all_answers (step : list definition) (w : world) :
  exists bs w',
    traverse (fun d => isUnused d specsDir) step w = (Returned bs, w')
    /\ List.length bs = List.length step
    /\ traverse (checkUsage specsDir) step w
       = (Returned (with_answers step bs), w').
Proof.
  revert w. induction step as [|d step IH]; intros w.
  - exists [], w. repeat split.
  - destruct (isUnused_outcome d specsDir w) as (w1 & H1 & _).
    destruct (IH w1) as (bs & w2 & H2 & L & H3).
    eexists (_ :: bs), w2. split; [|split].
    + cbn [traverse]. unfold bind. rewrite H1, H2. reflexivity.
    + cbn [List.length]. now rewrite L.
    + cbn [traverse]. unfold checkUsage at 1. unfold bind.
      rewrite H1. unfold ret at 1. rewrite H3. reflexivity.
Qed.

Lemma check_groups_answers (steps : list (list definition)) (w : world) :
  exists bss w',
    traverse (fun step => traverse (fun d => isUnused d specsDir) step) steps w
    = (Returned bss, w')
    /\ map (@List.length bool) bss = map (@List.length definition) steps
    /\ traverse (fun step => traverse (checkUsage specsDir) step) steps w
       = (Returned (groups_with_answers steps bss), w').
Proof.
  revert w. induction steps as [|step steps IH]; intros w.
  - exists [], w. repeat split.
  - destruct (check_all_answers step w) as (bs & w1 & H1 & L1 & K1).
    destruct (IH w1) as (bss & w2 & H2 & L2 & K2).
    exists (bs :: bss), w2. split; [|split].
    + cbn [traverse]. unfold bind. rewrite H1, H2. reflexivity.
    + cbn [map]. now rewrite L1, L2.
    + cbn [traverse]. unfold bind. rewrite K1, K2. reflexivity.
Qed.

Variable text : string.

Lemma answers_of_marks (step : list definition) (bs : list bool) :
  List.length bs = List.length step ->
  with_answers step bs = map (marked_by text) step ->
  bs = map (unmatched text) step.
Proof.
  revert bs. induction step as [|d step IH]; intros [|b bs] L H;
    try discriminate L; [reflexivity|].
  unfold with_answers in H. cbn [combine map fst snd] in H.
  unfold marked_by at 1 in H. injection H as Hb H. injection L as L.
  cbn [map]. unfold unmatched at 1. rewrite <- Hb. f_equal. now apply IH.
Qed.

Lemma group_answers_of_marks (steps : list (list definition))
      (bss : list (list bool)) :
  map (@List.length bool) bss = map (@List.length definition) steps ->
  groups_with_answers steps bss = map (map (marked_by text)) steps ->
  bss = map (map (unmatched text)) steps.
Proof.
  revert bss. induction steps as [|step steps IH]; intros [|bs bss] L H;
    try discriminate L; [reflexivity|].
  unfold groups_with_answers in H. cbn [combine map fst snd] in H.
  injection H as Hb H. injection L as L1 L.
  cbn [map]. f_equal; [now apply answers_of_marks|now apply IH].
Qed.

End GroupReport.



(* ================================================================== *)
(** ** Properties of the concept report *)

Section ConceptReport.

Lemma names_of_marked (text : string) (concepts : list definition) :
  map (fun c => ("# " ++ stepName (checked_definition c))%string)
      (filter unused (map (marked_by text) concepts))
  = map (fun d => ("# " ++ stepName d)%string)
        (filter (fun d => negb (matching_line text (pattern d))) concepts).
Proof.
  induction concepts as [|d concepts IH]; [reflexivity|].
  cbn [map filter].
  change (unused (marked_by text d)) with (negb (matching_line text (pattern d))).
  destruct (negb (matching_line text (pattern d))); cbn [map];
    now rewrite IH.
Qed.

End ConceptReport.



(* ================================================================== *)
(** ** Properties of the counts *)

Section Counts.

Lemma length_concat_map {A B} (g : A -> B) (l : list (list A)) :
  List.length (concat (map (map g) l)) = List.length (concat l).
Proof.
  induction l as [|x l IH]; simpl; [reflexivity|].
  now rewrite !length_app, length_map, IH.
Qed.

Lemma length_filter_le {A} (f : A -> bool) (l : list A) :
  List.length (filter f l) <= List.length l.
Proof.
  induction l as [|x l IH]; simpl; [lia|]. destruct (f x); simpl; lia.
Qed.

Lemma collected_groups_bounds (specsDir : string)
      (steps : list (list definition)) (marked : list (list checked)) :
  map (map checked_definition) marked = steps ->
  List.length (filter (fun step => existsb unused step) marked)
  <= List.length steps
  /\ List.length (flat_map (filter unused)
                           (filter (fun step => existsb unused step) marked))
     <= List.length (concat steps).
Proof.
  intros Hmap. split.
  - rewrite <- Hmap, length_map. apply length_filter_le.
  - rewrite unused_members_of_flagged, <- Hmap, length_concat_map.
    apply length_filter_le.
Qed.

End Counts.

(** The counts of the summary are consistent in every world and schedule:
    [findUnusedSteps] collects no more groups than it was given, and the
    members marked unused in the collected groups are no more than the step
    names there are; every collected group is one of the given groups, with
    marks. *)
Theorem findUnusedSteps_counts_are_bounded
        (steps : list (list definition)) (specsDir : string) (w w' : world)
        (unusedSteps : list (list checked)) :
  findUnusedSteps steps specsDir w = (Returned unusedSteps, w') ->
  List.length unusedSteps <= List.length steps
  /\ List.length (flat_map (filter unused) unusedSteps)
     <= List.length (concat steps)
  /\ (forall group, In group unusedSteps ->
        In (map checked_definition group) steps
        /\ existsb unused group = true).
Proof.
  intros H.
  destruct (check_groups_outcome specsDir steps w) as (marked & w1 & Hm & Hmap & _).
  unfold findUnusedSteps, bind in H. rewrite Hm in H.
  unfold ret in H. injection H as <- <-.
  destruct (collected_groups_bounds specsDir marked Hmap) as [B1 B2].
  split; [exact B1|split; [exact B2|]].
  intros group Hin. apply filter_In in Hin as [Hin Hsome].
    split; [|exact Hsome]. rewrite <- Hmap. now apply in_map.
Qed.

Lemma findUnusedSteps_counts_of_locked_project :
  exists w',
    findUnusedSteps [[login]] "p/specs" (fresh locked_project [])
    = (Returned [[mkChecked login true]], w')
    /\ List.length [[mkChecked login true]] <= List.length [[login]].
Proof.
  exists (snd (findUnusedSteps [[login]] "p/specs" (fresh locked_project []))).
  assert (H : findUnusedSteps [[login]] "p/specs" (fresh locked_project [])
              = (Returned [[mkChecked login true]],
                 snd (findUnusedSteps [[login]] "p/specs"
                                      (fresh locked_project []))))
    by (vm_compute; reflexivity).
  split; [exact H|].
  exact (proj1 (@findUnusedSteps_counts_are_bounded _ _ _ _ _ H)).
Defined.

(* ================================================================== *)
(** ** Properties of the run as a whole *)

Section Run.

Lemma printTarget_outcome (projectDir srcDir specsDir : string) (w : world) :
  printTarget projectDir srcDir specsDir w
  = (Returned tt, printed (target_lines projectDir srcDir specsDir) w).
Proof.
  unfold printTarget, bind, log. now rewrite !printed_printed.
Qed.

Lemma sh_console {c : command} {w w' : world} {r : outcome ProcessOutput} :
  sh c w = (r, w') -> w_console w' = w_console w.
Proof.
  destruct (sh_outcome c w) as (w1 & Hsh & Hcon & _).
  rewrite Hsh. now intros [= _ <-].
Qed.

Lemma traverse_lift_world {A B} (f : A -> outcome B) (xs : list A) (w : world) :
  snd (traverse (fun x => lift (f x)) xs w) = w.
Proof.
  induction xs as [|x xs IH]; simpl; [reflexivity|].
  unfold bind, lift at 1. destruct (f x); [|reflexivity].
  destruct (traverse (fun x => lift (f x)) xs w) as [[ys|e] w1]; exact IH.
Qed.

Lemma findSteps_console (srcDir : string) (w w' : world)
      (r : outcome (list (list definition))) :
  findSteps srcDir w = (r, w') -> w_console w' = w_console w.
Proof.
  unfold findSteps, bind.
  destruct (sh (CmdFindSteps srcDir) w) as [[out|e] w1] eqn:E.
  - intros H. rewrite <- (sh_console E).
    pose proof (traverse_lift_world convertToStepNames
                  (filter (fun line => (0 <? String.length line)%nat)
                          (split LF (stdout out))) w1) as T.
    rewrite H in T. simpl in T. now subst.
  - intros [= _ <-]. exact (sh_console E).
Qed.

Lemma findConcepts_console (specsDir : string) (w w' : world)
      (r : outcome (list definition)) :
  findConcepts specsDir w = (r, w') -> w_console w' = w_console w.
Proof.
  unfold findConcepts, bind.
  destruct (sh (CmdFindConceptFiles specsDir) w) as [[out|e] w1] eqn:E.
  - destruct (String.length (trim (stdout out)) =? 0)%nat.
    + intros [= _ <-]. exact (sh_console E).
    + destruct (sh (CmdGrepConcepts specsDir) w1) as [[out2|e] w2] eqn:E2;
        intros [= _ <-]; rewrite (sh_console E2); exact (sh_console E).
  - intros [= _ <-]. exact (sh_console E).
Qed.

Lemma findUnusedSteps_console (steps : list (list definition))
      (specsDir : string) (w w' : world) (r : outcome (list (list checked))) :
  findUnusedSteps steps specsDir w = (r, w') -> w_console w' = w_console w.
Proof.
  destruct (check_groups_outcome specsDir steps w) as (css & w1 & H & _ & Hcon).
  unfold findUnusedSteps, bind. rewrite H. now intros [= _ <-].
Qed.

Lemma findUnusedConcepts_console (concepts : list definition)
      (specsDir : string) (w w' : world) (r : outcome (list checked)) :
  findUnusedConcepts concepts specsDir w = (r, w') ->
  w_console w' = w_console w.
Proof.
  destruct (check_all_outcome specsDir concepts w) as (cs & w1 & H & _ & Hcon).
  unfold findUnusedConcepts, bind. rewrite H. now intros [= _ <-].
Qed.

Lemma findSpecFiles_console (specsDir : string) (w w' : world)
      (r : outcome (list string)) :
  findSpecFiles specsDir w = (r, w') -> w_console w' = w_console w.
Proof.
  unfold findSpecFiles, bind.
  destruct (sh (CmdFindSpecFiles specsDir) w) as [[out|e] w1] eqn:E;
    intros [= _ <-]; exact (sh_console E).
Qed.

Lemma formatForStepSearch_console (specsDir : string) (w w' : world) :
  formatForStepSearch specsDir w = (Returned tt, w') ->
  w_console w' = (w_console w ++ [("Format done." ++ newline)%string])%list.
Proof.
  destruct (findSpecFiles specsDir w) as [[paths|e] w1] eqn:E.
  - rewrite (formatForStepSearch_outcome specsDir w E).
    intros [= <-]. simpl. now rewrite (findSpecFiles_console _ _ E).
  - now rewrite (formatForStepSearch_thrown specsDir w E).
Qed.

(** [find] on a directory that is not there. *)
Lemma findSpecFiles_without_directory (specsDir : string) (w : world) :
  w_pending w = [] ->
  is_dir (w_fs w) specsDir = false ->
  read (w_fs w) specsDir = None ->
  exists w',
    findSpecFiles specsDir w = (Thrown (ProcessError (mkOutput "" 1)), w')
    /\ unchanged w w'.
Proof.
  intros Hquiet Hdir Hread. unfold findSpecFiles, bind.
  destruct (sh_outcome (CmdFindSpecFiles specsDir) w)
    as (w' & Hsh & Hcon & Hpend & Hfs).
  destruct (awaited_quiet (CmdFindSpecFiles specsDir) w Hquiet) as [Efs Ep].
  rewrite Hsh. simpl. rewrite Efs.
  unfold find_spec_files, find_type_f. rewrite Hdir, Hread. simpl.
  exists w'. split; [reflexivity|].
  repeat split; [rewrite Hfs; simpl; exact Efs|now rewrite Hpend|exact Hcon].
Qed.

End Run.

(** A run that completes has printed, after what was on the console, the
    four sections in their fixed order and nothing else: the target, the
    format message, the unused step names of the collected groups, the
    unused concepts and the summary of exactly these lists. *)
Theorem exec_prints_the_sections_in_order
        (normalize : string -> string) (projectDir : string) (w w' : world) :
  exec normalize projectDir w = (Returned tt, w') ->
  exists steps unusedSteps concepts unusedConcepts,
    w_console w'
    = (w_console w
       ++ target_lines projectDir
                       (normalize (projectDir ++ "/src/test/kotlin")%string)
                       (normalize (projectDir ++ "/specs")%string)
       ++ [("Format done." ++ newline)%string]
       ++ steps_section unusedSteps
       ++ concepts_section unusedConcepts
       ++ summary_lines steps unusedSteps concepts unusedConcepts)%list
    /\ List.length unusedSteps <= List.length steps
    /\ List.length unusedConcepts <= List.length concepts.
Proof.
  unfold exec, bind. rewrite printTarget_outcome.
  set (srcDir := normalize (projectDir ++ "/src/test/kotlin")).
  set (specsDir := normalize (projectDir ++ "/specs")).
  set (w0 := printed (target_lines projectDir srcDir specsDir) w).
  destruct (formatForStepSearch specsDir w0) as [[[]|e] w1] eqn:E1;
    [|discriminate].
  destruct (findSteps srcDir w1) as [[steps|e] w2] eqn:E2; [|discriminate].
  destruct (findUnusedSteps steps specsDir w2) as [[us|e] w3] eqn:E3;
    [|discriminate].
  rewrite printUnusedSteps_outcome.
  set (w4 := printed _ w3).
  destruct (findConcepts specsDir w4) as [[concepts|e] w5] eqn:E4;
    [|discriminate].
  assert (Huc : exists uc w6,
             (if (0 <? List.length concepts)%nat
              then findUnusedConcepts concepts specsDir
              else ret []) w5 = (Returned uc, w6)
             /\ w_console w6 = w_console w5
             /\ List.length uc <= List.length concepts).
  { destruct (0 <? List.length concepts)%nat.
    - destruct (check_all_outcome specsDir concepts w5)
        as (cs & w6 & H & Hmap & Hcon).
      exists (filter unused cs), w6. unfold findUnusedConcepts, bind.
      rewrite H. split; [reflexivity|]. split; [exact Hcon|].
      rewrite <- Hmap, length_map. apply length_filter_le.
    - exists [], w5. repeat split. simpl. lia. }
  destruct Huc as (uc & w6 & E5 & C5 & L5). rewrite E5.
  rewrite printUnusedConcepts_outcome, printSummary_outcome.
  intros [= <-]. exists steps, us, concepts, uc.
  split; [|split; [|exact L5]].
  - cbn [w_console printed].
    rewrite C5, (findConcepts_console _ _ E4). subst w4.
    cbn [w_console printed].
    rewrite (findUnusedSteps_console _ _ _ E3), (findSteps_console _ _ E2).
    rewrite (formatForStepSearch_console _ _ E1). subst w0.
    cbn [w_console printed].
    unfold steps_section, concepts_section, summary_lines.
    rewrite <- !app_assoc. reflexivity.
  - destruct (check_groups_outcome specsDir steps w2)
      as (marked & w7 & Hm & Hmap & _).
    unfold findUnusedSteps, bind in E3. rewrite Hm in E3.
    unfold ret in E3. injection E3 as <- _.
    exact (proj1 (collected_groups_bounds specsDir marked Hmap)).
Qed.

Lemma exec_sections_of_clean_project :
  exists steps unusedSteps concepts unusedConcepts,
    w_console (snd (exec (fun dir => dir) "p" (fresh clean_project [])))
    = ([]
       ++ target_lines "p" "p/src/test/kotlin" "p/specs"
       ++ [("Format done." ++ newline)%string]
       ++ steps_section unusedSteps
       ++ concepts_section unusedConcepts
       ++ summary_lines steps unusedSteps concepts unusedConcepts)%list
    /\ List.length unusedSteps <= List.length steps
    /\ List.length unusedConcepts <= List.length concepts.
Proof.
  apply (exec_prints_the_sections_in_order
           (fun dir => dir) "p" (fresh clean_project [])
           (w' := snd (exec (fun dir => dir) "p" (fresh clean_project [])))).
  vm_compute. reflexivity.
Defined.

(** When the specs directory is not there, the run ends with the exception
    of the first [find], right after the target section: nothing is
    normalized, no step is read and no report is printed. *)
Theorem exec_aborts_without_specs_directory
        (normalize : string -> string) (projectDir : string) (w : world) :
  w_pending w = [] ->
  is_dir (w_fs w) (normalize (projectDir ++ "/specs")) = false ->
  read (w_fs w) (normalize (projectDir ++ "/specs")) = None ->
  exists w',
    exec normalize projectDir w
    = (Thrown (ProcessError (mkOutput "" 1)), w')
    /\ w_fs w' = w_fs w
    /\ w_pending w' = []
    /\ w_console w'
       = (w_console w
          ++ target_lines projectDir
               (normalize (projectDir ++ "/src/test/kotlin")%string)
               (normalize (projectDir ++ "/specs")%string))%list.
Proof.
  intros Hquiet Hdir Hread. unfold exec, bind. rewrite printTarget_outcome.
  set (w0 := printed _ w).
  destruct (findSpecFiles_without_directory
              (normalize (projectDir ++ "/specs")) w0 Hquiet Hdir Hread)
    as (w' & H & Hfs & Hpend & Hcon).
  rewrite (formatForStepSearch_thrown _ w0 H).
  exists w'. split; [reflexivity|]. repeat split; assumption.
Qed.

Lemma exec_aborts_on_headless_project :
  exists w',
    exec (fun dir => dir) "p" (fresh headless_project [])
    = (Thrown (ProcessError (mkOutput "" 1)), w')
    /\ w_fs w' = headless_project
    /\ w_pending w' = []
    /\ w_console w' = target_lines "p" "p/src/test/kotlin" "p/specs".
Proof.
  apply (exec_aborts_without_specs_directory
           (fun dir => dir) "p" (fresh headless_project []));
    reflexivity.
Defined.

(** On a specs directory without any file the listing is empty and the
    script takes it for one path, the empty one: [formatForStepSearch]
    starts a single append, for that path, which fails to open it and
    changes nothing. *)
Theorem formatForStepSearch_on_empty_directory
        (specsDir : string) (w : world) :
  w_pending w = [] ->
  is_dir (w_fs w) specsDir = true ->
  files_below (w_fs w) specsDir = [] ->
  read (w_fs w) "" = None ->
  exists w2,
    findSpecFiles specsDir w = (Returned [""], snd (findSpecFiles specsDir w))
    /\ formatForStepSearch specsDir w = (Returned tt, w2)
    /\ w_pending w2 = [CmdAppendNewline ""]
    /\ w_fs (drain w2) = w_fs w.
Proof.
  intros Hquiet Hdir Hnone Hread.
  assert (Hlist : exists w1,
             findSpecFiles specsDir w = (Returned [""], w1)
             /\ w_fs w1 = w_fs w /\ w_pending w1 = []).
  { unfold findSpecFiles, bind.
    destruct (sh_outcome (CmdFindSpecFiles specsDir) w)
      as (w1 & Hsh & _ & Hpend & Hfs).
    destruct (awaited_quiet (CmdFindSpecFiles specsDir) w Hquiet) as [Efs Ep].
    rewrite Hsh. simpl. rewrite Efs.
    unfold find_spec_files, find_type_f. rewrite Hdir.
    fold (files_below (w_fs w) specsDir). rewrite Hnone. simpl.
    exists w1. split; [reflexivity|]. split.
    - rewrite Hfs. simpl. exact Efs.
    - now rewrite Hpend. }
  destruct Hlist as (w1 & Hlist & Hfs & Hpend).
  eexists. split; [now rewrite Hlist|].
  split; [apply (formatForStepSearch_outcome specsDir w Hlist)|].
  cbn [w_pending printed]. rewrite Hpend. split; [reflexivity|].
  unfold drain. cbn [w_pending printed]. rewrite ?Hpend.
  cbn [app map List.length settle_n].
  unfold settle. cbn [w_pending printed]. rewrite ?Hpend.
  cbn [app map w_fs printed run]. rewrite Hfs.
  unfold append_newline, tail_c1, echo_append. rewrite Hread. reflexivity.
Qed.

Lemma formatForStepSearch_on_specless_project :
  exists w2,
    findSpecFiles "p/specs" (fresh specless_project [])
    = (Returned [""], snd (findSpecFiles "p/specs" (fresh specless_project [])))
    /\ formatForStepSearch "p/specs" (fresh specless_project [])
       = (Returned tt, w2)
    /\ w_pending w2 = [CmdAppendNewline ""]
    /\ w_fs (drain w2) = specless_project.
Proof.
  apply (formatForStepSearch_on_empty_directory
           "p/specs" (fresh specless_project []));
    reflexivity.
Defined.

(* ================================================================== *)
(** ** How grep reads and matches the pattern of a plain name *)

Section PlainNames.

Ltac ordinary_facts H :=
  unfold ordinary in H;
  repeat (apply andb_true_iff in H; destruct H as [H ?]);
  repeat match goal with
         | X : negb _ = true |- _ => apply negb_true_iff in X
         end.

Lemma repetitions_stop (r : Ere.re) (s : string) :
  starts_with_repetition s = false -> Ere.repetitions r s = (r, s).
Proof.
  destruct s as [|c s]; [reflexivity|]. unfold starts_with_repetition.
  destruct c as [[] [] [] [] [] [] [] []]; try reflexivity; discriminate.
Qed.

Lemma wildcarded_starts_without_repetition (ps : list piece) :
  forallb plain_piece ps = true ->
  starts_with_repetition (wildcarded ps ++ "\s*$") = false.
Proof.
  destruct ps as [|[c|body] ps]; [reflexivity| |reflexivity].
  cbn [forallb plain_piece]. intros H. apply andb_true_iff in H as [H _].
  ordinary_facts H. simpl.
  repeat match goal with
         | X : Ascii.eqb c _ = false |- _ => rewrite X
         end.
  reflexivity.
Qed.

Lemma sequence_step (n : nat) (c : ascii) (s : string) :
  Ere.sequence (S n) (String c s)
  = if Ascii.eqb c "|" || Ascii.eqb c ")" then Some (Ere.Eps, String c s)
    else
      match Ere.atom n (String c s) with
      | Some (a, rest) =>
          let (q, rest') := Ere.repetitions a rest in
          match Ere.sequence n rest' with
          | Some (r, rest'') => Some (Ere.Cat q r, rest'')
          | None => None
          end
      | None => None
      end.
Proof. reflexivity. Qed.

Lemma atom_ordinary (n : nat) (c : ascii) (s : string) :
  ordinary c = true -> Ere.atom (S n) (String c s) = Some (Ere.Chr c, s).
Proof.
  intros H. ordinary_facts H. cbn [Ere.atom].
  repeat match goal with
         | X : Ascii.eqb c _ = false |- _ => rewrite X
         end.
  reflexivity.
Qed.

Lemma sequence_body (ps : list piece) (n : nat) :
  forallb plain_piece ps = true ->
  List.length ps + 3 <= n ->
  Ere.sequence n (wildcarded ps ++ "\s*$") = Some (body_re ps, "").
Proof.
  revert n. induction ps as [|[c|body] ps IH]; intros n Hps Hn.
  - destruct n as [|[|[|n]]]; try lia. reflexivity.
  - cbn [forallb plain_piece] in Hps. apply andb_true_iff in Hps as [Hc Hps].
    simpl in Hn. destruct n as [|[|n]]; try lia.
    pose proof (wildcarded_starts_without_repetition ps Hps) as Hstop.
    change (wildcarded (Text c :: ps) ++ "\s*$")
      with (String c (wildcarded ps ++ "\s*$")).
    rewrite sequence_step, (@atom_ordinary n c _ Hc).
    rewrite (repetitions_stop _ _ Hstop).
    rewrite (IH (S n) Hps) by lia.
    ordinary_facts Hc.
    repeat match goal with
           | X : Ascii.eqb c _ = false |- _ => rewrite X
           end.
    reflexivity.
  - cbn [forallb] in Hps. apply andb_true_iff in Hps as [_ Hps].
    simpl in Hn. destruct n as [|[|n]]; try lia.
    pose proof (wildcarded_starts_without_repetition ps Hps) as Hstop.
    change (wildcarded (Placeholder body :: ps) ++ "\s*$")
      with (String "." (String "+" (wildcarded ps ++ "\s*$"))).
    rewrite sequence_step.
    change (Ere.atom (S n) (String "." (String "+" (wildcarded ps ++ "\s*$"))))
      with (Some (Ere.AnyChar, String "+" (wildcarded ps ++ "\s*$"))).
    cbn [Ascii.eqb Bool.eqb orb andb]. cbv beta iota.
    change (Ere.repetitions Ere.AnyChar
                            (String "+" (wildcarded ps ++ "\s*$")))
      with (Ere.repetitions (Ere.Plus Ere.AnyChar) (wildcarded ps ++ "\s*$")).
    rewrite (repetitions_stop _ _ Hstop).
    rewrite (IH (S n) Hps) by lia. reflexivity.
Qed.

Lemma alternatives_step (n : nat) (s : string) :
  Ere.alternatives (S n) s
  = match Ere.sequence n s with
    | Some (r, String "|" s') =>
        match Ere.alternatives n s' with
        | Some (r', rest) => Some (Ere.Alt r r', rest)
        | None => None
        end
    | other => other
    end.
Proof. reflexivity. Qed.

Lemma alternatives_pattern (ps : list piece) (n : nat) :
  forallb plain_piece ps = true ->
  List.length ps + 7 <= n ->
  Ere.alternatives n ("^\*\s+" ++ wildcarded ps ++ "\s*$")
  = Some (pattern_re ps, "").
Proof.
  intros Hps Hn. destruct n as [|[|[|[|n]]]]; try lia.
  pose proof (wildcarded_starts_without_repetition ps Hps) as Hstop.
  change ("^\*\s+" ++ wildcarded ps ++ "\s*$")
    with (String "^" (String "\" (String "*" (String "\" (String "s"
           (String "+" (wildcarded ps ++ "\s*$"))))))).
  rewrite alternatives_step, sequence_step.
  cbn [Ascii.eqb Bool.eqb orb andb].
  destruct n as [|n]; [lia|].
  change (Ere.atom (S (S (S n))) (String "^" ?x)) with (Some (Ere.Bol, x)).
  cbv beta iota. rewrite repetitions_stop by reflexivity.
  rewrite sequence_step. cbn [Ascii.eqb Bool.eqb orb andb].
  change (Ere.atom (S (S n)) (String "\" (String "*" ?x)))
    with (Some (Ere.Chr "*", x)).
  cbv beta iota. rewrite repetitions_stop by reflexivity.
  rewrite sequence_step. cbn [Ascii.eqb Bool.eqb orb andb].
  change (Ere.atom (S n) (String "\" (String "s" ?x)))
    with (Some (Ere.Space false, x)).
  cbv beta iota.
  change (Ere.repetitions (Ere.Space false)
                          (String "+" (wildcarded ps ++ "\s*$")))
    with (Ere.repetitions (Ere.Plus (Ere.Space false))
                          (wildcarded ps ++ "\s*$")).
  rewrite (repetitions_stop _ _ Hstop).
  rewrite (sequence_body ps (n := S n) Hps) by lia.
  reflexivity.
Qed.

Lemma length_append (a b : string) :
  String.length (a ++ b) = String.length a + String.length b.
Proof. induction a as [|c a IH]; simpl; [reflexivity|now rewrite IH]. Qed.

Lemma length_wildcarded (ps : list piece) :
  List.length ps <= String.length (wildcarded ps).
Proof.
  induction ps as [|[c|body] ps IH]; simpl; lia.
Qed.

Lemma split_without_separator (sep : ascii) (s : string) :
  mem_char sep s = false -> split sep s = [s].
Proof.
  induction s as [|c s IH]; simpl; [reflexivity|].
  intros H. apply orb_false_iff in H as [Hc H]. rewrite Hc. now rewrite IH.
Qed.

Lemma wildcarded_on_one_line (ps : list piece) :
  forallb plain_piece ps = true -> mem_char LF (wildcarded ps) = false.
Proof.
  induction ps as [|[c|body] ps IH]; intros H; [reflexivity| |].
  - cbn [forallb plain_piece] in H. apply andb_true_iff in H as [Hc H].
    ordinary_facts Hc. simpl.
    repeat match goal with
           | X : Ascii.eqb c _ = false |- _ => rewrite X
           end.
    simpl. auto.
  - cbn [forallb] in H. apply andb_true_iff in H as [_ H]. simpl. auto.
Qed.

Lemma plain_pieces_well_formed (ps : list piece) :
  forallb plain_piece ps = true -> forallb well_formed ps = true.
Proof.
  induction ps as [|[c|body] ps IH]; intros H; [reflexivity| |].
  - cbn [forallb plain_piece] in H. apply andb_true_iff in H as [Hc H].
    cbn [forallb]. rewrite (IH H), andb_true_r.
    ordinary_facts Hc. simpl.
    repeat match goal with
           | X : Ascii.eqb c _ = false |- _ => rewrite X
           end.
    reflexivity.
  - cbn [forallb plain_piece] in H. apply andb_true_iff in H as [Hb H].
    cbn [forallb]. now rewrite Hb, (IH H).
Qed.

(** grep reads the pattern of a plain name as the marker, white space, the
    name with [.+] for each placeholder, white space and the end of the
    line. *)
Lemma parse_pattern_of_plain_name (ps : list piece) :
  forallb plain_piece ps = true ->
  createStepNamePattern (render ps) = "^\*\s+" ++ wildcarded ps ++ "\s*$"
  /\ Ere.parse_arg (createStepNamePattern (render ps)) = Some (pattern_re ps).
Proof.
  intros Hps.
  assert (Hpat : createStepNamePattern (render ps)
                 = "^\*\s+" ++ wildcarded ps ++ "\s*$").
  { unfold createStepNamePattern.
    now rewrite (replace_render ps (plain_pieces_well_formed ps Hps)). }
  split; [exact Hpat|]. rewrite Hpat. unfold Ere.parse_arg.
  rewrite split_without_separator.
  - cbn [Ere.parse_all]. unfold Ere.parse.
    rewrite (alternatives_pattern ps Hps).
    + reflexivity.
    + rewrite !length_append. pose proof (length_wildcarded ps). simpl. lia.
  - rewrite !mem_char_app, (wildcarded_on_one_line ps Hps). reflexivity.
Qed.

(** *** Matching *)

Lemma run_star (r' : Ere.re) (b : bool) (s : string)
      (k : bool -> string -> bool) :
  Ere.run (Ere.Star r') b s k = star_loop r' k (String.length s) b s.
Proof. reflexivity. Qed.

Lemma star_loop_step (r' : Ere.re) (k : bool -> string -> bool) (n : nat)
      (b : bool) (t : string) :
  star_loop r' k (S n) b t
  = k b t
    || Ere.run r' b t
               (fun b' t' => (String.length t' <? String.length t)%nat
                             && star_loop r' k n b' t').
Proof. reflexivity. Qed.

Lemma star_loop_stop (r' : Ere.re) (k : bool -> string -> bool) (n : nat)
      (b : bool) (t : string) :
  k b t = true -> star_loop r' k n b t = true.
Proof.
  intros H. destruct n; [unfold star_loop|rewrite star_loop_step];
    now rewrite H.
Qed.

(** A repetition of a one-character expression consumes a run of
    characters that it accepts. *)
Lemma star_loop_chars (r' : Ere.re) (step : ascii -> bool)
      (k : bool -> string -> bool) (rest : string) :
  (forall b x t k', Ere.run r' b (String x t) k' = step x && k' false t) ->
  (forall b', k b' rest = true) ->
  forall ws n b,
    String.length ws <= n -> all_chars step ws = true ->
    star_loop r' k n b (ws ++ rest) = true.
Proof.
  intros Hone Hk. induction ws as [|x ws IH]; intros n b Hn Hall.
  - apply star_loop_stop, Hk.
  - simpl in Hn. destruct n as [|n]; [lia|].
    cbn [all_chars] in Hall. apply andb_true_iff in Hall as [Hx Hall].
    change (String x ws ++ rest) with (String x (ws ++ rest)).
    rewrite star_loop_step, Hone, Hx.
    assert (Hlt : (String.length (ws ++ rest)
                   <? String.length (String x (ws ++ rest)))%nat = true)
      by (apply Nat.ltb_lt; simpl; lia).
    rewrite Hlt, IH by (auto; lia). apply orb_true_r.
Qed.

Lemma run_star_chars (r' : Ere.re) (step : ascii -> bool)
      (k : bool -> string -> bool) (ws rest : string) (b : bool) :
  (forall b x t k', Ere.run r' b (String x t) k' = step x && k' false t) ->
  (forall b', k b' rest = true) ->
  all_chars step ws = true ->
  Ere.run (Ere.Star r') b (ws ++ rest) k = true.
Proof.
  intros Hone Hk Hall. rewrite run_star.
  apply star_loop_chars with (step := step); auto.
  rewrite length_append. lia.
Qed.

Lemma all_chars_any (s : string) : all_chars (fun _ => true) s = true.
Proof. induction s; simpl; auto. Qed.

Lemma run_cat (r1 r2 : Ere.re) (b : bool) (s : string)
      (k : bool -> string -> bool) :
  Ere.run (Ere.Cat r1 r2) b s k
  = Ere.run r1 b s (fun b' s' => Ere.run r2 b' s' k).
Proof. reflexivity. Qed.

Lemma run_chr (c x : ascii) (b : bool) (t : string)
      (k : bool -> string -> bool) :
  Ere.run (Ere.Chr c) b (String x t) k = Ascii.eqb x c && k false t.
Proof. reflexivity. Qed.

Lemma run_any (x : ascii) (b : bool) (t : string)
      (k : bool -> string -> bool) :
  Ere.run Ere.AnyChar b (String x t) k = (fun _ => true) x && k false t.
Proof. reflexivity. Qed.

Lemma run_space (x : ascii) (b : bool) (t : string)
      (k : bool -> string -> bool) :
  Ere.run (Ere.Space false) b (String x t) k = is_space x && k false t.
Proof. reflexivity. Qed.

Lemma run_bol (b : bool) (s : string) (k : bool -> string -> bool) :
  Ere.run Ere.Bol b s k = b && k b s.
Proof. reflexivity. Qed.

Lemma run_end (b : bool) (k : bool -> string -> bool) :
  Ere.run (Ere.Cat Ere.Eol Ere.Eps) b "" k = k b "".
Proof. reflexivity. Qed.

Lemma run_body (ps : list piece) (ws2 : string) :
  all_chars is_space ws2 = true ->
  forall args b,
    fits ps args = true ->
    Ere.run (body_re ps) b (instantiate ps args ++ ws2) (fun _ _ => true)
    = true.
Proof.
  intros Hws. induction ps as [|[c|body] ps IH]; intros args b Hfit.
  - cbn [body_re instantiate]. rewrite run_cat.
    change ("" ++ ws2) with ws2. rewrite <- (append_empty_r ws2).
    apply run_star_chars with (step := is_space).
    + intros. apply run_space.
    + intros b'. apply run_end.
    + exact Hws.
  - cbn [fits] in Hfit. cbn [body_re instantiate].
    change (String c (instantiate ps args) ++ ws2)
      with (String c (instantiate ps args ++ ws2)).
    rewrite run_cat, run_chr, Ascii.eqb_refl. cbn [andb]. now apply IH.
  - cbn [fits] in Hfit. destruct args as [|a args]; [discriminate|].
    apply andb_true_iff in Hfit as [Ha Hfit]. apply negb_true_iff in Ha.
    destruct a as [|y a]; [discriminate|].
    cbn [body_re instantiate]. rewrite append_assoc.
    change (String y a ++ instantiate ps args ++ ws2)
      with (String y (a ++ (instantiate ps args ++ ws2))).
    unfold Ere.Plus. rewrite !run_cat, run_any. cbn [andb].
    apply run_star_chars with (step := fun _ => true).
    + intros. apply run_any.
    + intros b'. now apply IH.
    + apply all_chars_any.
Qed.

(** The expression of a plain name matches every call of the step: the
    marker, some white space, the name with an argument for each
    placeholder, and white space or nothing to the end of the line. *)
Lemma search_call (ps : list piece) (args : list string) (ws1 ws2 : string) :
  fits ps args = true ->
  ws1 <> "" -> all_chars is_space ws1 = true ->
  all_chars is_space ws2 = true ->
  Ere.search (pattern_re ps) ("*" ++ ws1 ++ instantiate ps args ++ ws2) = true.
Proof.
  intros Hfit Hne Hws1 Hws2. destruct ws1 as [|x ws1]; [congruence|].
  cbn [all_chars] in Hws1. apply andb_true_iff in Hws1 as [Hx Hws1].
  unfold Ere.search.
  change ("*" ++ String x ws1 ++ instantiate ps args ++ ws2)
    with (String "*" (String x (ws1 ++ (instantiate ps args ++ ws2)))).
  cbn [Ere.search_from]. apply orb_true_iff. left.
  unfold pattern_re, Ere.Plus.
  rewrite run_cat, run_bol. cbn [andb].
  rewrite run_cat, run_chr. cbn [andb Ascii.eqb Bool.eqb].
  rewrite !run_cat, run_space, Hx. cbn [andb].
  apply run_star_chars with (step := is_space).
  - intros. apply run_space.
  - intros b'. now apply run_body.
  - exact Hws1.
Qed.

(** What the expression of a plain name matches starts at the start of the
    line, with the marker and white space. *)
Lemma search_needs_marker (ps : list piece) (line : string) :
  Ere.search (pattern_re ps) line = true -> marked_line line = true.
Proof.
  assert (Hlater : forall s, Ere.search_from (pattern_re ps) false s = false).
  { induction s as [|c s IH]; cbn [Ere.search_from];
      unfold pattern_re; rewrite run_cat, run_bol; [reflexivity|].
    cbn [andb orb]. exact IH. }
  unfold Ere.search. destruct line as [|c line].
  - cbn [Ere.search_from]. unfold pattern_re.
    rewrite run_cat, run_bol, run_cat. cbn [andb]. discriminate.
  - cbn [Ere.search_from]. rewrite Hlater, orb_false_r.
    unfold pattern_re, Ere.Plus.
    rewrite run_cat, run_bol. cbn [andb]. rewrite run_cat, run_chr.
    destruct (Ascii.eqb c "*") eqn:Hc; [|discriminate]. cbn [andb].
    destruct line as [|x line].
    + rewrite !run_cat. discriminate.
    + rewrite !run_cat, run_space. cbn [marked_line]. rewrite Hc.
      destruct (is_space x); [reflexivity|discriminate].
Qed.

End PlainNames.





(* ================================================================== *)
(** ** Properties of the concepts that are found *)

Section Concepts.

Lemma mem_char_drop_while (x : ascii) (p : ascii -> bool) (s : string) :
  mem_char x s = false -> mem_char x (drop_while p s) = false.
Proof.
  induction s as [|c s IH]; simpl; [reflexivity|].
  intros H. destruct (p c); [|exact H].
  apply orb_false_iff in H as [_ H]. auto.
Qed.

Lemma mem_char_rev (x : ascii) (s : string) :
  mem_char x (rev s) = mem_char x s.
Proof.
  induction s as [|c s IH]; [reflexivity|].
  rewrite rev_cons, mem_char_app, IH. simpl.
  rewrite orb_false_r. apply orb_comm.
Qed.

Lemma mem_char_trim (x : ascii) (s : string) :
  mem_char x s = false -> mem_char x (trim s) = false.
Proof.
  intros H. unfold trim. rewrite mem_char_rev.
  apply mem_char_drop_while. rewrite mem_char_rev.
  now apply mem_char_drop_while.
Qed.

Lemma mem_char_remove_other (x y : ascii) (s : string) :
  mem_char x s = false -> mem_char x (remove_char y s) = false.
Proof.
  induction s as [|c s IH]; simpl; [reflexivity|].
  intros H. apply orb_false_iff in H as [Hc H].
  destruct (Ascii.eqb c y); simpl; [auto|]. rewrite Hc. auto.
Qed.

Lemma split_pieces_without_separator (sep : ascii) (s piece : string) :
  In piece (split sep s) -> mem_char sep piece = false.
Proof.
  revert piece. induction s as [|c s IH]; intros piece; simpl.
  - intros [<-|[]]. reflexivity.
  - destruct (Ascii.eqb c sep) eqn:E.
    + intros [<-|H]; [reflexivity|auto].
    + destruct (split sep s) as [|q qs] eqn:Es.
      * intros [<-|[]]. simpl. now rewrite E.
      * intros [<-|H].
        -- simpl. rewrite E. apply IH. now left.
        -- apply IH. now right.
Qed.

End Concepts.

(** Whenever [findConcepts] returns, the name of every concept holds no
    [#] and no newline, and its pattern is the one the pattern builder makes
    of the name. *)
Theorem findConcepts_declarations_are_well_formed
        (specsDir : string) (w w' : world) (concepts : list definition) :
  findConcepts specsDir w = (Returned concepts, w') ->
  Forall (fun d => pattern d = createStepNamePattern (stepName d)
                   /\ mem_char "#" (stepName d) = false
                   /\ mem_char LF (stepName d) = false)
         concepts.
Proof.
  unfold findConcepts, bind.
  destruct (sh (CmdFindConceptFiles specsDir) w) as [[out|e] w1];
    [|discriminate].
  destruct (String.length (trim (stdout out)) =? 0)%nat.
  - intros [= <- _]. constructor.
  - destruct (sh (CmdGrepConcepts specsDir) w1) as [[out2|e] w2];
      [|discriminate].
    intros [= <- _]. apply Forall_forall. intros d Hd.
    apply in_map_iff in Hd as (name & <- & Hname).
    apply in_map_iff in Hname as (raw & <- & Hraw).
    split; [reflexivity|]. simpl. split.
    + apply mem_char_trim, mem_remove_char.
    + apply mem_char_trim, mem_char_remove_other.
      eapply split_pieces_without_separator, Hraw.
Qed.

Lemma findConcepts_declarations_of_concept_project :
  exists w',
    findConcepts "p/specs" (fresh concept_project [])
    = (Returned [mkDefinition "Checkout Flow" "^\*\s+Checkout Flow\s*$"], w')
    /\ Forall (fun d => pattern d = createStepNamePattern (stepName d)
                        /\ mem_char "#" (stepName d) = false
                        /\ mem_char LF (stepName d) = false)
              [mkDefinition "Checkout Flow" "^\*\s+Checkout Flow\s*$"].
Proof.
  exists (snd (findConcepts "p/specs" (fresh concept_project []))).
  assert (H : findConcepts "p/specs" (fresh concept_project [])
              = (Returned
                   [mkDefinition "Checkout Flow" "^\*\s+Checkout Flow\s*$"],
                 snd (findConcepts "p/specs" (fresh concept_project []))))
    by (vm_compute; reflexivity).
  split; [exact H|].
  exact (@findConcepts_declarations_are_well_formed _ _ _ _ H).
Defined.

(* ================================================================== *)
(** ** What a run does to the files *)

Section Files.

Variable Q : fsys -> Prop.
Hypothesis Q_run : forall c fs, Q fs -> Q (snd (run c fs)).

Lemma keeps_ret {A} (a : A) : keeps Q (ret a).
Proof. intros w H. exact H. Qed.

Lemma keeps_lift {A} (o : outcome A) : keeps Q (lift o).
Proof. intros w H. exact H. Qed.

Lemma keeps_log (line : string) : keeps Q (log line).
Proof. intros w H. exact H. Qed.

Lemma keeps_spawn (c : command) : keeps Q (spawn c).
Proof. intros w H. exact H. Qed.

Lemma keeps_sh (c : command) : keeps Q (sh c).
Proof. intros w H. now apply sh_keeps. Qed.

Lemma keeps_bind {A B} (m : M A) (f : A -> M B) :
  keeps Q m -> (forall a, keeps Q (f a)) -> keeps Q (bind m f).
Proof.
  intros Hm Hf w H. unfold bind. specialize (Hm w H).
  destruct (m w) as [[a|e] w1]; [now apply Hf|exact Hm].
Qed.

Lemma keeps_try_catch {A} (m : M A) (h : exn -> M A) :
  keeps Q m -> (forall e, keeps Q (h e)) -> keeps Q (try_catch m h).
Proof.
  intros Hm Hh w H. unfold try_catch. specialize (Hm w H).
  destruct (m w) as [[a|e] w1]; [exact Hm|now apply Hh].
Qed.

Lemma keeps_traverse {A B} (f : A -> M B) (xs : list A) :
  (forall x, keeps Q (f x)) -> keeps Q (traverse f xs).
Proof.
  intros Hf. induction xs as [|x xs IH]; simpl.
  - apply keeps_ret.
  - apply keeps_bind; [apply Hf|]. intros y.
    apply keeps_bind; [exact IH|]. intros ys. apply keeps_ret.
Qed.

Lemma keeps_for_each {A} (f : A -> M unit) (xs : list A) :
  (forall x, keeps Q (f x)) -> keeps Q (for_each f xs).
Proof.
  intros Hf. induction xs as [|x xs IH]; simpl.
  - apply keeps_ret.
  - apply keeps_bind; [apply Hf|]. intros _. exact IH.
Qed.

Lemma keeps_if {A} (b : bool) (m1 m2 : M A) :
  keeps Q m1 -> keeps Q m2 -> keeps Q (if b then m1 else m2).
Proof. now destruct b. Qed.

Lemma keeps_isUnused (d : definition) (specsDir : string) :
  keeps Q (isUnused d specsDir).
Proof.
  apply keeps_try_catch.
  - apply keeps_bind; [apply keeps_sh|]. intros _. apply keeps_ret.
  - intros _. apply keeps_ret.
Qed.

Lemma keeps_checkUsage (specsDir : string) (d : definition) :
  keeps Q (checkUsage specsDir d).
Proof.
  apply keeps_bind; [apply keeps_isUnused|]. intros u. apply keeps_ret.
Qed.

Lemma keeps_exec (normalize : string -> string) (projectDir : string) :
  keeps Q (exec normalize projectDir).
Proof.
  unfold exec.
  repeat first
    [ apply keeps_ret | apply keeps_log | apply keeps_spawn | apply keeps_sh
    | apply keeps_lift | apply keeps_checkUsage
    | apply keeps_if
    | apply keeps_traverse; intros ?
    | apply keeps_for_each; intros ?
    | apply keeps_bind; [|intros ?]
    | progress unfold printTarget, formatForStepSearch, findSpecFiles,
        findSteps, findUnusedSteps, printUnusedSteps, findConcepts,
        findUnusedConcepts, printUnusedConcepts, printSummary ].
Qed.

End Files.



(* ================================================================== *)
(** ** The listing, the normalization and the summary, once more *)

(** In a run that starts, on a specs directory under which no path holds a
    line feed and none starts or ends with white space (white space inside
    a path is allowed), [findSpecFiles] returns exactly the regular files
    below the directory, in the order of the listing, and leaves the files
    as they are. *)
Theorem findSpecFiles_returns_the_files_below
        (specsDir : string) (w : world) :
  w_pending w = [] ->
  is_dir (w_fs w) specsDir = true ->
  files_below (w_fs w) specsDir <> [] ->
  forallb listed_path (files_below (w_fs w) specsDir) = true ->
  exists w1,
    findSpecFiles specsDir w = (Returned (files_below (w_fs w) specsDir), w1)
    /\ w_fs w1 = w_fs w /\ w_pending w1 = [].
Proof. apply findSpecFiles_of_plain_tree. Qed.

Lemma findSpecFiles_of_path_with_blank :
  exists w1,
    findSpecFiles "p/specs" (fresh read_only_project [])
    = (Returned ["p/specs/empty.spec"; "p/specs/my login.spec"], w1)
    /\ w_fs w1 = read_only_project /\ w_pending w1 = [].
Proof.
  apply (findSpecFiles_returns_the_files_below
           "p/specs" (fresh read_only_project []));
    [reflexivity | reflexivity | discriminate | reflexivity].
Defined.

(** The whole normalization on such a directory, started with no child
    process running: [formatForStepSearch] returns, and once the appends it
    started have run, every file below the directory that can be read and
    written holds its old bytes and ends with a newline, which was appended
    only where it was missing; a file that can be read and not written is as
    it was, with or without final newline. *)
Theorem formatForStepSearch_normalizes_every_file
        (specsDir p data : string) (f : file) (w : world) :
  w_pending w = [] ->
  is_dir (w_fs w) specsDir = true ->
  forallb listed_path (files_below (w_fs w) specsDir) = true ->
  under specsDir p = true ->
  read (w_fs w) p = Some f ->
  contents f = Some data ->
  exists w2,
    formatForStepSearch specsDir w = (Returned tt, w2)
    /\ read (w_fs (drain w2)) p
       = Some (if writable f then Readable (normalized data) else f).
Proof.
  intros Hquiet Hdir Hplain Hunder Hread Hdata.
  destruct (formatForStepSearch_normalizes_plain_tree
              specsDir p w Hquiet Hdir Hplain Hunder Hread Hdata)
    as (w2 & H & _ & _ & Hafter).
  exists w2. split; [exact H|exact Hafter].
Qed.

Lemma formatForStepSearch_normalizes_unterminated_project :
  (exists w2,
     formatForStepSearch "p/specs" (fresh unterminated_project [])
     = (Returned tt, w2)
     /\ read (w_fs (drain w2)) "p/specs/a.spec"
        = Some (Readable ("* Login as admin" ++ newline)))
  /\ (exists w2,
        formatForStepSearch "p/specs" (fresh read_only_project [])
        = (Returned tt, w2)
        /\ read (w_fs (drain w2)) "p/specs/my login.spec"
           = Some (ReadOnly "* Login as admin")).
Proof.
  split.
  - apply (formatForStepSearch_normalizes_every_file
             "p/specs" "p/specs/a.spec" (data := "* Login as admin")
             (f := Readable "* Login as admin")
             (fresh unterminated_project []));
      reflexivity.
  - apply (formatForStepSearch_normalizes_every_file
             "p/specs" "p/specs/my login.spec" (data := "* Login as admin")
             (f := ReadOnly "* Login as admin")
             (fresh read_only_project []));
      reflexivity.
Defined.

Section SummaryMore.

Lemma filter_of_some {A} (f : A -> bool) (l : list A) :
  existsb f l = true -> 0 < List.length (filter f l).
Proof.
  induction l as [|x l IH]; simpl; [discriminate|].
  destruct (f x); simpl; [lia|exact IH].
Qed.

End SummaryMore.

(** Given groups that each hold an unused member, as [findUnusedSteps]
    collects them, the summary is the single line [ALL CLEAN!] between two
    rules exactly when no group and no concept is handed in as unused;
    otherwise it is the three counts: groups collected out of groups, unused
    names out of names, unused concepts out of concepts. *)
Theorem printSummary_is_all_clean_or_the_counts
        (steps : list (list definition)) (unusedSteps : list (list checked))
        (concepts : list definition) (unusedConcepts : list checked)
        (w : world) :
  (forall step, In step unusedSteps -> existsb unused step = true) ->
  printSummary steps unusedSteps concepts unusedConcepts w
  = (Returned tt,
     printed
       (match unusedSteps, unusedConcepts with
        | [], [] => [rule; "ALL CLEAN!"; rule]
        | _, _ =>
            [rule;
             ("Unused steps: " ++ of_nat (List.length unusedSteps) ++ " / "
              ++ of_nat (List.length steps))%string;
             ("Unused step names: "
              ++ of_nat (List.length (filter unused (concat unusedSteps)))
              ++ " / " ++ of_nat (List.length (concat steps)))%string;
             ("Unused concepts: " ++ of_nat (List.length unusedConcepts)
              ++ " / " ++ of_nat (List.length concepts))%string;
             rule]
        end) w).
Proof.
  intros Hsome. rewrite printSummary_outcome.
  replace (flat_map (filter unused) unusedSteps)
    with (filter unused (concat unusedSteps))
    by (clear; induction unusedSteps as [|x l IH]; simpl;
        [reflexivity|now rewrite filter_app, IH]).
  destruct unusedSteps as [|step rest].
  - destruct unusedConcepts; reflexivity.
  - assert (Hpos : (0 <? List.length (filter unused (concat (step :: rest))))%nat
                   = true).
    { apply Nat.ltb_lt. simpl. rewrite filter_app, length_app.
      pose proof (filter_of_some unused step (Hsome step (or_introl eq_refl))).
      lia. }
    rewrite Hpos. destruct unusedConcepts; reflexivity.
Qed.

Lemma printSummary_of_one_unused_step :
  printSummary [[login]] [[mkChecked login true]] [] []
               (fresh clean_project [])
  = (Returned tt,
     printed [rule; "Unused steps: 1 / 1"; "Unused step names: 1 / 1";
              "Unused concepts: 0 / 0"; rule]
             (fresh clean_project [])).
Proof.
  apply (printSummary_is_all_clean_or_the_counts
           [[login]] [[mkChecked login true]] [] [] (fresh clean_project [])).
  intros step [<-|[]]. reflexivity.
Defined.

(* ================================================================== *)
(** ** Sources without annotation, concept files without header *)

Section NothingToExtract.

Lemma pipefail_ends_failed (codes : list nat) (n : nat) :
  pipefail (codes ++ [S n]) = S n.
Proof. unfold pipefail. now rewrite fold_left_app. Qed.

Lemma search_from_needs_first_char (a : ascii) (X : Ere.re) (line : string)
      (b : bool) :
  Ere.search_from (Ere.Cat (Ere.Chr a) X) b line = true ->
  mem_char a line = true.
Proof.
  revert b. induction line as [|c line IH]; intros b.
  - cbn [Ere.search_from]. rewrite run_cat. discriminate.
  - cbn [Ere.search_from]. rewrite run_cat, run_chr. cbn [mem_char].
    destruct (Ascii.eqb c a); [reflexivity|]. cbn [andb orb]. apply IH.
Qed.

Lemma awk_range_lines_nothing (start stop : Ere.re) (ls : list string) :
  forallb (fun l => negb (Ere.search start l)) ls = true ->
  awk_range_lines start stop false ls = [].
Proof.
  induction ls as [|l ls IH]; [reflexivity|].
  cbn [forallb awk_range_lines]. intros H.
  apply andb_true_iff in H as [Hl H]. apply negb_true_iff in Hl.
  rewrite Hl. auto.
Qed.

(** Sources in which no line holds an [@] give the two awk stages and
    [grep -o] nothing to print. *)
Lemma find_steps_pipeline_without_annotation (fs : fsys) (srcDir : string) :
  forallb (fun l => negb (mem_char "@" l))
          (lines (fst (xargs_cat fs (unlines (fst (find_name fs srcDir "kt"))))))
  = true ->
  find_steps_pipeline fs srcDir = mkOutput "" 1.
Proof.
  intros Hnone. unfold find_steps_pipeline.
  destruct (find_name fs srcDir "kt") as [listed c1]. cbn [fst] in Hnone.
  destruct (xargs_cat fs (unlines listed)) as [text c2]. cbn [fst] in Hnone.
  assert (Hrange : awk_range "@Step" "\)" text = ("", 0)).
  { unfold awk_range.
    destruct (Ere.parse "@Step") as [r1|] eqn:E1; [|discriminate E1].
    destruct (Ere.parse "\)") as [r2|] eqn:E2; [|discriminate E2].
    rewrite awk_range_lines_nothing; [reflexivity|].
    rewrite forallb_forall in Hnone. apply forallb_forall. intros l Hl.
    specialize (Hnone l Hl). apply negb_true_iff in Hnone.
    apply negb_true_iff. destruct (Ere.search r1 l) eqn:Hs; [|reflexivity].
    vm_compute in E1. injection E1 as <-.
    apply search_from_needs_first_char in Hs. congruence. }
  rewrite Hrange. cbv beta iota.
  change (awk_join ",$" "") with ("", 0). cbv beta iota.
  change (grep_o quote_pattern "") with ("", 1). cbv beta iota.
  f_equal; apply (pipefail_ends_failed [c1; c2; 0; 0] 0).
Qed.

Lemma run_header_needs_hash (X : Ere.re) (b : bool) (line : string)
      (k : bool -> string -> bool) :
  b && starts_with_hash line = false ->
  Ere.run (Ere.Cat Ere.Bol (Ere.Cat (Ere.Chr "#") X)) b line k = false.
Proof.
  intros H. rewrite run_cat, run_bol. destruct b; [|reflexivity].
  cbn [andb] in *. destruct line as [|c line].
  - rewrite run_cat. reflexivity.
  - rewrite run_cat, run_chr. cbn [starts_with_hash] in H. now rewrite H.
Qed.

Lemma longest_header_none (X : Ere.re) (b : bool) (line : string) (n : nat) :
  b && starts_with_hash line = false ->
  Ere.longest (Ere.Cat Ere.Bol (Ere.Cat (Ere.Chr "#") X)) b line n = None.
Proof.
  intros H. induction n as [|n IH]; [reflexivity|].
  cbn [Ere.longest]. unfold Ere.match_len.
  now rewrite (run_header_needs_hash X b line _ H).
Qed.

Lemma only_matching_header_none (X : Ere.re) (fuel : nat) (b : bool)
      (line : string) :
  b && starts_with_hash line = false ->
  Ere.only_matching fuel (Ere.Cat Ere.Bol (Ere.Cat (Ere.Chr "#") X)) b line
  = [].
Proof.
  revert b line. induction fuel as [|fuel IH]; intros b line H;
    [reflexivity|].
  destruct line as [|c line]; [reflexivity|].
  cbn [Ere.only_matching]. rewrite (longest_header_none X _ _ _ H).
  now apply IH.
Qed.

(** Concept files in which no line starts with [#] give [grep -oE] nothing
    to print. *)
Lemma grep_concepts_without_header (text : string) :
  forallb (fun l => negb (starts_with_hash l)) (lines text) = true ->
  grep_o "^\#\s+.*\s*$" text = ("", 1).
Proof.
  intros Hnone. unfold grep_o.
  destruct (Ere.parse_arg "^\#\s+.*\s*$") as [r|] eqn:E; [|discriminate E].
  vm_compute in E. injection E as <-.
  assert (Hparts : forall ls,
             forallb (fun l => negb (starts_with_hash l)) ls = true ->
             flat_map
               (fun l =>
                  Ere.only_matching
                    (S (String.length l))
                    (Ere.Cat Ere.Bol
                       (Ere.Cat (Ere.Chr "#")
                          (Ere.Cat
                             (Ere.Cat (Ere.Space false)
                                      (Ere.Star (Ere.Space false)))
                             (Ere.Cat (Ere.Star Ere.AnyChar)
                                (Ere.Cat (Ere.Star (Ere.Space false))
                                   (Ere.Cat Ere.Eol Ere.Eps))))))
                    true l) ls = []).
  { induction ls as [|l ls IH]; [reflexivity|].
    cbn [forallb flat_map]. intros H. apply andb_true_iff in H as [Hl H].
    apply negb_true_iff in Hl.
    rewrite only_matching_header_none by (cbn [andb]; exact Hl).
    now rewrite IH. }
  now rewrite (Hparts (lines text) Hnone).
Qed.

End NothingToExtract.

(** When no line of the listed sources holds an [@], [findSteps] raises the
    [ProcessOutput] of zx with status 1, whether there are source files or
    not: sources without any step annotation abort the run. *)
Theorem findSteps_raises_without_annotation (srcDir : string) (w : world) :
  w_pending w = [] ->
  forallb (fun l => negb (mem_char "@" l))
          (lines (fst (xargs_cat (w_fs w)
                                 (unlines (fst (find_name (w_fs w) srcDir
                                                          "kt"))))))
  = true ->
  exists w',
    findSteps srcDir w = (Thrown (ProcessError (mkOutput "" 1)), w').
Proof.
  intros Hquiet Hnone. unfold findSteps, bind.
  destruct (sh_outcome (CmdFindSteps srcDir) w) as (w' & Hsh & _).
  destruct (awaited_quiet (CmdFindSteps srcDir) w Hquiet) as [Efs _].
  rewrite Hsh. simpl. rewrite Efs.
  rewrite (find_steps_pipeline_without_annotation _ _ Hnone). simpl.
  exists w'. reflexivity.
Qed.

Lemma findSteps_raises_on_bare_project :
  exists w',
    findSteps "p/src/test/kotlin" (fresh bare_project [])
    = (Thrown (ProcessError (mkOutput "" 1)), w').
Proof.
  apply (findSteps_raises_without_annotation
           "p/src/test/kotlin" (fresh bare_project []));
    reflexivity.
Defined.


